(** * Timer: the model classes of [src/js/timer.js] and their text codec

    The development embeds the [Project] and [Projects] classes, the text
    serialization of both and the storage synchronization of the Timer
    application, and states the properties of the specification over them.

    Conventions of the embedding:
    - a JavaScript string is the list of its UTF-16 code units ([jsstring]);
    - a JavaScript number is [NaN] or an integer ([num]); the program only adds
      and subtracts clock readings, so no fraction ever appears.  The model is
      exact while the integers stay inside the safe range [(-2^53, 2^53)];
      negative zero is identified with zero;
    - [(new Date).getTime()] is an extra argument [now] of the method that
      reads the clock (each method reads it at most once);
    - a method is a computation in a state-and-exception monad over the object
      it mutates; an exception leaves the mutations made so far in place;
    - in the methods of the two classes an event handler is the caller's and
      is opaque: calling it appends an entry to a log, which also records
      what the handler could observe of the list at that time, and it is
      assumed to return normally and not to mutate the model.  The functions
      that the application itself sets as handlers are modelled with what
      they do to the model, in [Application]. *)

From Stdlib Require Import ZArith List Bool String Ascii Lia.
Import ListNotations.
Local Open Scope Z_scope.

(** ** Values of the JavaScript runtime *)

Definition jsstring := list Z.

Inductive num : Type :=
| NaN
| Int (z : Z).

(** What a variable or an array slot holding a string may hold. *)
Inductive value : Type :=
| Undefined
| Str (s : jsstring).

Inductive exn : Type :=
| URIError
| Thrown (message : jsstring).

Inductive result (A : Type) : Type :=
| Ok (a : A)
| Throw (e : exn).
Arguments Ok {A} a.
Arguments Throw {A} e.

Definition rbind {A B} (r : result A) (k : A -> result B) : result B :=
  match r with
  | Ok a => k a
  | Throw e => Throw e
  end.

(** A string literal of the source, as code units. *)
Fixpoint lit (s : string) : jsstring :=
  match s with
  | EmptyString => []
  | String c rest => Z.of_nat (nat_of_ascii c) :: lit rest
  end.

Fixpoint jsstring_eqb (a b : jsstring) : bool :=
  match a, b with
  | [], [] => true
  | x :: a', y :: b' => (x =? y) && jsstring_eqb a' b'
  | _, _ => false
  end.

(** [==] between two values that are strings or [undefined]. *)
Definition value_eqb (a b : value) : bool :=
  match a, b with
  | Undefined, Undefined => true
  | Str s, Str t => jsstring_eqb s t
  | _, _ => false
  end.

(** [+] and [-] on numbers that hold integers: exact while the operands and
    the result are safe integers, which the theorems that depend on the
    value of a sum or a difference assume. *)
Definition num_add (a b : num) : num :=
  match a, b with
  | Int x, Int y => Int (x + y)
  | _, _ => NaN
  end.

Definition num_sub (a b : num) : num :=
  match a, b with
  | Int x, Int y => Int (x - y)
  | _, _ => NaN
  end.

Definition safe_integer (z : Z) : Prop := - 2 ^ 53 < z < 2 ^ 53.

(** ** Number to string and [parseInt] (ECMA-262, Number::toString and
    parseInt with no radix argument) *)

(** Both are exact on safe integers.  Outside them the code departs from
    these definitions: it prints an integer of 10^21 or more in exponent
    form, and it rounds the integer that [parseInt] reads to a double. *)

Fixpoint digits_from (fuel : nat) (z : Z) (acc : jsstring) : jsstring :=
  match fuel with
  | O => acc
  | S fuel' =>
      let acc' := (48 + z mod 10) :: acc in
      if z / 10 =? 0 then acc' else digits_from fuel' (z / 10) acc'
  end.

(** Decimal digits of a non-negative integer; the number of bits bounds the
    number of digits. *)
Definition digits (z : Z) : jsstring :=
  digits_from (S (Z.to_nat (Z.log2 z))) z [].

Definition Number_toString (n : num) : jsstring :=
  match n with
  | NaN => lit "NaN"
  | Int z => if z <? 0 then 45 :: digits (- z) else digits z
  end.

Definition ToString (v : value) : jsstring :=
  match v with
  | Undefined => lit "undefined"
  | Str s => s
  end.

(** WhiteSpace and LineTerminator code points, as StrWhiteSpaceChar. *)
Definition isWhiteSpace (c : Z) : bool :=
  ((9 <=? c) && (c <=? 13)) || (c =? 32) || (c =? 160) || (c =? 5760)
  || ((8192 <=? c) && (c <=? 8202)) || (c =? 8232) || (c =? 8233)
  || (c =? 8239) || (c =? 8287) || (c =? 12288) || (c =? 65279).

Fixpoint TrimStart (s : jsstring) : jsstring :=
  match s with
  | c :: rest => if isWhiteSpace c then TrimStart rest else s
  | [] => []
  end.

(** The value of a code unit as a digit in the given radix, if it is one. *)
Definition digitValue (radix c : Z) : option Z :=
  let v :=
    if (48 <=? c) && (c <=? 57) then Some (c - 48)
    else if (65 <=? c) && (c <=? 90) then Some (c - 55)
    else if (97 <=? c) && (c <=? 122) then Some (c - 87)
    else None in
  match v with
  | Some d => if d <? radix then Some d else None
  | None => None
  end.

(** Reads the longest prefix of digits; [seen] tells whether one was read. *)
Fixpoint parseDigits (radix : Z) (s : jsstring) (seen : bool) (acc : Z)
  : option Z :=
  match s with
  | c :: rest =>
      match digitValue radix c with
      | Some d => parseDigits radix rest true (acc * radix + d)
      | None => if seen then Some acc else None
      end
  | [] => if seen then Some acc else None
  end.

Definition parseInt (v : value) : num :=
  let S0 := TrimStart (ToString v) in
  let sign := match S0 with
              | c :: _ => if c =? 45 then -1 else 1
              | [] => 1
              end in
  let S1 := match S0 with
            | c :: rest => if (c =? 43) || (c =? 45) then rest else S0
            | [] => S0
            end in
  let '(R, S2) := match S1 with
                  | z :: x :: rest =>
                      if (z =? 48) && ((x =? 120) || (x =? 88))
                      then (16, rest) else (10, S1)
                  | _ => (10, S1)
                  end in
  match parseDigits R S2 false 0 with
  | Some mathInt => Int (sign * mathInt)
  | None => NaN
  end.

(** ** [split] and [join] with a one-character separator, array indexing *)

Fixpoint split (sep : Z) (s : jsstring) : list jsstring :=
  match s with
  | [] => [[]]
  | c :: rest =>
      if c =? sep then [] :: split sep rest
      else match split sep rest with
           | piece :: pieces => (c :: piece) :: pieces
           | [] => [[c]]
           end
  end.

Fixpoint join (sep : Z) (parts : list jsstring) : jsstring :=
  match parts with
  | [] => []
  | [p] => p
  | p :: rest => p ++ sep :: join sep rest
  end.

(** [parts[i]]: [undefined] past the end of the array. *)
Definition index (parts : list jsstring) (i : nat) : value :=
  match nth_error parts i with
  | Some s => Str s
  | None => Undefined
  end.

(** An array element as [join] prints it: [undefined] prints as nothing. *)
Definition joinItem (v : value) : jsstring :=
  match v with
  | Undefined => []
  | Str s => s
  end.

(** ** [encodeURIComponent] and [decodeURIComponent] (ECMA-262, Encode and
    Decode with the unescaped set of URI components) *)

(** uriAlpha, DecimalDigit and uriMark: letters, digits and [-_.!~*'()]. *)
Definition uriUnescaped (c : Z) : bool :=
  ((65 <=? c) && (c <=? 90)) || ((97 <=? c) && (c <=? 122))
  || ((48 <=? c) && (c <=? 57))
  || (c =? 45) || (c =? 95) || (c =? 46) || (c =? 33) || (c =? 126)
  || (c =? 42) || (c =? 39) || (c =? 40) || (c =? 41).

Definition isLeadingSurrogate (c : Z) : bool := (55296 <=? c) && (c <=? 56319).
Definition isTrailingSurrogate (c : Z) : bool := (56320 <=? c) && (c <=? 57343).

Definition UTF16SurrogatePairToCodePoint (lead trail : Z) : Z :=
  (lead - 55296) * 1024 + (trail - 56320) + 65536.

Definition UTF16EncodeCodePoint (cp : Z) : jsstring :=
  if cp <=? 65535 then [cp]
  else [(cp - 65536) / 1024 + 55296; (cp - 65536) mod 1024 + 56320].

(** The octets of the UTF-8 transformation of a code point. *)
Definition utf8Octets (cp : Z) : list Z :=
  if cp <? 128 then [cp]
  else if cp <? 2048 then [192 + cp / 64; 128 + cp mod 64]
  else if cp <? 65536 then
    [224 + cp / 4096; 128 + (cp / 64) mod 64; 128 + cp mod 64]
  else [240 + cp / 262144; 128 + (cp / 4096) mod 64;
        128 + (cp / 64) mod 64; 128 + cp mod 64].

Definition hexDigit (d : Z) : Z := if d <? 10 then 48 + d else 55 + d.

(** One octet as [%XX], with uppercase hexadecimal digits. *)
Definition escapeOctet (b : Z) : jsstring :=
  [37; hexDigit ((b / 16) mod 16); hexDigit (b mod 16)].

Definition escapeOctets (octets : list Z) : jsstring :=
  flat_map escapeOctet octets.

Fixpoint Encode (s : jsstring) : result jsstring :=
  match s with
  | [] => Ok []
  | C :: rest =>
      if uriUnescaped C then rbind (Encode rest) (fun R => Ok (C :: R))
      else if isLeadingSurrogate C then
        match rest with
        | D :: rest' =>
            if isTrailingSurrogate D then
              rbind (Encode rest') (fun R =>
                Ok (escapeOctets
                      (utf8Octets (UTF16SurrogatePairToCodePoint C D)) ++ R))
            else Throw URIError
        | [] => Throw URIError
        end
      else if isTrailingSurrogate C then Throw URIError
      else rbind (Encode rest) (fun R => Ok (escapeOctets (utf8Octets C) ++ R))
  end.

Definition encodeURIComponent (s : jsstring) : result jsstring := Encode s.

Definition hexValue (c : Z) : option Z :=
  if (48 <=? c) && (c <=? 57) then Some (c - 48)
  else if (65 <=? c) && (c <=? 70) then Some (c - 55)
  else if (97 <=? c) && (c <=? 102) then Some (c - 87)
  else None.

Definition ParseHexOctet (h1 h2 : Z) : option Z :=
  match hexValue h1, hexValue h2 with
  | Some a, Some b => Some (a * 16 + b)
  | _, _ => None
  end.

(** Reads [j] further escapes [%XX] and returns their octets. *)
Fixpoint continuationBytes (j : nat) (s : jsstring) : result (list Z) :=
  match j with
  | O => Ok []
  | S j' =>
      match s with
      | p :: h1 :: h2 :: rest =>
          if p =? 37 then
            match ParseHexOctet h1 h2 with
            | Some B => rbind (continuationBytes j' rest) (fun Bs => Ok (B :: Bs))
            | None => Throw URIError
            end
          else Throw URIError
      | _ => Throw URIError
      end
  end.

Definition isContinuation (b : Z) : bool := (128 <=? b) && (b <=? 191).

(** The code point of a well-formed UTF-8 sequence of two to four octets
    (no overlong form, no surrogate, nothing above U+10FFFF). *)
Definition utf8CodePoint (octets : list Z) : option Z :=
  match octets with
  | [b0; b1] =>
      if (194 <=? b0) && (b0 <=? 223) && isContinuation b1
      then Some ((b0 - 192) * 64 + (b1 - 128)) else None
  | [b0; b1; b2] =>
      if (224 <=? b0) && (b0 <=? 239)
         && ((if b0 =? 224 then 160 else 128) <=? b1)
         && (b1 <=? (if b0 =? 237 then 159 else 191))
         && isContinuation b2
      then Some ((b0 - 224) * 4096 + (b1 - 128) * 64 + (b2 - 128)) else None
  | [b0; b1; b2; b3] =>
      if (240 <=? b0) && (b0 <=? 244)
         && ((if b0 =? 240 then 144 else 128) <=? b1)
         && (b1 <=? (if b0 =? 244 then 143 else 191))
         && isContinuation b2 && isContinuation b3
      then Some ((b0 - 240) * 262144 + (b1 - 128) * 4096
                 + (b2 - 128) * 64 + (b3 - 128)) else None
  | _ => None
  end.

(** The number of leading one bits of an octet, 5 standing for "more than
    four". *)
Definition leadingOnes (B : Z) : nat :=
  if B <? 128 then 0 else if B <? 192 then 1 else if B <? 224 then 2
  else if B <? 240 then 3 else if B <? 248 then 4 else 5.

(** Decodes the escape whose [%] has just been read: the code units it stands
    for and the number of code units consumed after the [%]. *)
Definition decodeEscape (s : jsstring) : result (jsstring * nat) :=
  match s with
  | h1 :: h2 :: rest =>
      match ParseHexOctet h1 h2 with
      | None => Throw URIError
      | Some B =>
          match leadingOnes B with
          | O => Ok ([B], 2%nat)
          | S O => Throw URIError
          | S (S (S (S (S _)))) => Throw URIError
          | S j =>
              rbind (continuationBytes j rest) (fun Bs =>
                match utf8CodePoint (B :: Bs) with
                | Some V => Ok (UTF16EncodeCodePoint V, (2 + 3 * j)%nat)
                | None => Throw URIError
                end)
          end
      end
  | _ => Throw URIError
  end.

(** The loop of Decode; [skip] is the distance from the current position to
    the index [k] of the loop, which an escape moves forward. *)
Fixpoint Decode (skip : nat) (s : jsstring) : result jsstring :=
  match s with
  | [] => Ok []
  | C :: rest =>
      match skip with
      | S skip' => Decode skip' rest
      | O =>
          if C =? 37 then
            rbind (decodeEscape rest) (fun '(S_, used) =>
              rbind (Decode used rest) (fun R => Ok (S_ ++ R)))
          else rbind (Decode 0 rest) (fun R => Ok (C :: R))
      end
  end.

Definition decodeURIComponent (s : jsstring) : result jsstring := Decode 0 s.

(** ** Objects, events and the monad of methods *)

(** What an event-handler attribute holds: a function, known by its identity,
    or anything else ([null] at creation). *)
Inductive callback : Type :=
| NoFunction
| Function (f : nat).

Record Project : Type := {
  _name : jsstring;
  _state : value;
  _timeSpentInPreviousIterations : num;
  _currentIterationStartTime : num;
  _onChange : callback
}.

Record Projects : Type := {
  _projects : list Project;
  _onAdd : callback;
  _onRemove : callback
}.

(** A call of a handler or of the view, with its arguments and the object it
    could observe when it was called. *)
Inductive Event : Type :=
| OnChange (f : nat) (this : Project)
| OnAdd (f : nat) (project : Project) (this : Projects)
| OnRemove (f : nat) (index : Z) (this : Projects)
| RowUpdated (index : nat) (project : Project).

(** A method over an object of type [St]: its outcome, the object afterwards
    and the calls it made, in order. *)
Definition M (St A : Type) : Type := St -> result A * St * list Event.

Definition ret {St A} (a : A) : M St A := fun s => (Ok a, s, []).

Definition bind {St A B} (m : M St A) (k : A -> M St B) : M St B :=
  fun s =>
    match m s with
    | (Ok a, s', evs) =>
        let '(r, s'', evs') := k a s' in (r, s'', evs ++ evs')
    | (Throw e, s', evs) => (Throw e, s', evs)
    end.

Definition self {St} : M St St := fun s => (Ok s, s, []).
Definition set_self {St} (s : St) : M St unit := fun _ => (Ok tt, s, []).
Definition emit {St} (ev : Event) : M St unit := fun s => (Ok tt, s, [ev]).

(** The outcome of a call of the runtime inside a method. *)
Definition lift {St A} (r : result A) : M St A := fun s => (r, s, []).

(** A method of another object [o], called from a method over [St]; returns
    the object as the method left it. *)
Definition on {St O A} (o : O) (m : M O A) : M St (A * O) :=
  fun s =>
    match m o with
    | (Ok a, o', evs) => (Ok (a, o'), s, evs)
    | (Throw e, _, evs) => (Throw e, s, evs)
    end.

Declare Scope method_scope.
Delimit Scope method_scope with method.
Notation "x <- m ;; k" := (bind m (fun x => k))
  (at level 61, m at next level, right associativity) : method_scope.
Notation "' pat <- m ;; k" :=
  (bind m (fun x => match x with pat => k end))
  (at level 61, pat pattern, m at next level, right associativity)
  : method_scope.
Notation "m ;; k" := (bind m (fun _ => k))
  (at level 61, right associativity) : method_scope.
Local Open Scope method_scope.

(** ** The Project class *)

Module Project.

Module State.
Definition STOPPED : jsstring := lit "stopped".
Definition RUNNING : jsstring := lit "running".
End State.

(** [new Project(name)] *)
Definition new (name : jsstring) : Project :=
  {| _name := name;
     _state := Str State.STOPPED;
     _timeSpentInPreviousIterations := Int 0;
     _currentIterationStartTime := Int 0;
     _onChange := NoFunction |}.

Definition set_name (v : jsstring) : M Project unit :=
  this <- self ;;
  set_self {| _name := v;
         _state := _state this;
         _timeSpentInPreviousIterations := _timeSpentInPreviousIterations this;
         _currentIterationStartTime := _currentIterationStartTime this;
         _onChange := _onChange this |}.

Definition set_state (v : value) : M Project unit :=
  this <- self ;;
  set_self {| _name := _name this;
         _state := v;
         _timeSpentInPreviousIterations := _timeSpentInPreviousIterations this;
         _currentIterationStartTime := _currentIterationStartTime this;
         _onChange := _onChange this |}.

Definition set_timeSpentInPreviousIterations (v : num) : M Project unit :=
  this <- self ;;
  set_self {| _name := _name this;
         _state := _state this;
         _timeSpentInPreviousIterations := v;
         _currentIterationStartTime := _currentIterationStartTime this;
         _onChange := _onChange this |}.

Definition set_currentIterationStartTime (v : num) : M Project unit :=
  this <- self ;;
  set_self {| _name := _name this;
         _state := _state this;
         _timeSpentInPreviousIterations := _timeSpentInPreviousIterations this;
         _currentIterationStartTime := v;
         _onChange := _onChange this |}.

Definition getName : M Project jsstring :=
  this <- self ;; ret (_name this).

Definition getState : M Project value :=
  this <- self ;; ret (_state this).

Definition isStopped : M Project bool :=
  this <- self ;; ret (value_eqb (_state this) (Str State.STOPPED)).

Definition isRunning : M Project bool :=
  this <- self ;; ret (value_eqb (_state this) (Str State.RUNNING)).

Definition setOnChange (onChange : callback) : M Project unit :=
  this <- self ;;
  set_self {| _name := _name this;
         _state := _state this;
         _timeSpentInPreviousIterations := _timeSpentInPreviousIterations this;
         _currentIterationStartTime := _currentIterationStartTime this;
         _onChange := onChange |}.

Definition _getCurrentIterationTime (now : Z) : M Project num :=
  this <- self ;;
  ret (num_sub (Int now) (_currentIterationStartTime this)).

Definition getTimeSpent (now : Z) : M Project num :=
  this <- self ;;
  let result := _timeSpentInPreviousIterations this in
  if value_eqb (_state this) (Str State.RUNNING) then
    t <- _getCurrentIterationTime now ;;
    ret (num_add result t)
  else ret result.

Definition _callOnChange : M Project unit :=
  this <- self ;;
  match _onChange this with
  | Function f => emit (OnChange f this)
  | NoFunction => ret tt
  end.

Definition start (now : Z) : M Project unit :=
  this <- self ;;
  if value_eqb (_state this) (Str State.RUNNING) then ret tt
  else
    set_state (Str State.RUNNING) ;;
    set_currentIterationStartTime (Int now) ;;
    _callOnChange.

Definition stop (now : Z) : M Project unit :=
  this <- self ;;
  if value_eqb (_state this) (Str State.STOPPED) then ret tt
  else
    set_state (Str State.STOPPED) ;;
    this <- self ;;
    t <- _getCurrentIterationTime now ;;
    set_timeSpentInPreviousIterations
      (num_add (_timeSpentInPreviousIterations this) t) ;;
    set_currentIterationStartTime (Int 0) ;;
    _callOnChange.

Definition reset (now : Z) : M Project unit :=
  stop now ;;
  set_timeSpentInPreviousIterations (Int 0) ;;
  _callOnChange.

Definition serialize : M Project jsstring :=
  this <- self ;;
  name <- lift (encodeURIComponent (_name this)) ;;
  ret (join 38 [name;
                joinItem (_state this);
                Number_toString (_timeSpentInPreviousIterations this);
                Number_toString (_currentIterationStartTime this)]).

Definition deserialize (serialized : jsstring) : M Project unit :=
  let parts := split 38 serialized in
  name <- lift (decodeURIComponent (ToString (index parts 0))) ;;
  set_name name ;;
  set_state (index parts 1) ;;
  set_timeSpentInPreviousIterations (parseInt (index parts 2)) ;;
  set_currentIterationStartTime (parseInt (index parts 3)).

End Project.

(** ** The Projects class *)

(** [array.splice(index, 1)] on the elements of an array: a negative index
    counts from the end, and nothing is deleted past the end. *)
Definition splice1 {A} (array : list A) (index : Z) : list A :=
  let len := Z.of_nat (List.length array) in
  let actualStart :=
    if index <? 0 then Z.max (len + index) 0 else Z.min index len in
  let actualDeleteCount := Z.min (Z.max 1 0) (len - actualStart) in
  firstn (Z.to_nat actualStart) array
  ++ skipn (Z.to_nat (actualStart + actualDeleteCount)) array.

Module Projects.

(** [new Projects()] *)
Definition new : Projects :=
  {| _projects := []; _onAdd := NoFunction; _onRemove := NoFunction |}.

Definition set_projects (v : list Project) : M Projects unit :=
  this <- self ;;
  set_self {| _projects := v; _onAdd := _onAdd this; _onRemove := _onRemove this |}.

Definition setOnAdd (onAdd : callback) : M Projects unit :=
  this <- self ;;
  set_self {| _projects := _projects this; _onAdd := onAdd;
         _onRemove := _onRemove this |}.

Definition setOnRemove (onRemove : callback) : M Projects unit :=
  this <- self ;;
  set_self {| _projects := _projects this; _onAdd := _onAdd this;
         _onRemove := onRemove |}.

Definition length : M Projects Z :=
  this <- self ;; ret (Z.of_nat (List.length (_projects this))).

(** [this._projects[index]]: [None] is [undefined]. *)
Definition get (index : Z) : M Projects (option Project) :=
  this <- self ;;
  ret (if index <? 0 then None else nth_error (_projects this) (Z.to_nat index)).

(** The loop of [forEach] from index [i] on, [remaining] being the elements
    from there.  The callback runs over the variables [Env] it closes over and
    receives the list object as an argument. *)
Fixpoint forEach_from {Env} (callback : Project -> nat -> Projects -> M Env unit)
  (this : Projects) (i : nat) (remaining : list Project) : M Env unit :=
  match remaining with
  | [] => ret tt
  | project :: rest =>
      callback project i this ;;
      forEach_from callback this (S i) rest
  end.

Definition forEach {Env} (callback : Project -> nat -> Projects -> M Env unit)
  (this : Projects) : M Env unit :=
  forEach_from callback this 0 (_projects this).

Definition _callOnAdd (project : Project) : M Projects unit :=
  this <- self ;;
  match _onAdd this with
  | Function f => emit (OnAdd f project this)
  | NoFunction => ret tt
  end.

Definition add (project : Project) : M Projects unit :=
  this <- self ;;
  set_projects (_projects this ++ [project]) ;;
  _callOnAdd project.

Definition _callOnRemove (index : Z) : M Projects unit :=
  this <- self ;;
  match _onRemove this with
  | Function f => emit (OnRemove f index this)
  | NoFunction => ret tt
  end.

Definition remove (index : Z) : M Projects unit :=
  _callOnRemove index ;;
  this <- self ;;
  set_projects (splice1 (_projects this) index).

Definition serialize : M Projects jsstring :=
  this <- self ;;
  '(_, serializedProjects) <-
    on [] (forEach (fun project _ _ =>
                      '(s, _) <- on project Project.serialize ;;
                      pushed <- self ;;
                      set_self (pushed ++ [s]))
                   this) ;;
  ret (join 124 serializedProjects).

(** [while (this._projects.length > 0) { this.remove(0); }]; the fuel is
    the number of iterations allowed. *)
Fixpoint removeWhileNotEmpty (fuel : nat) : M Projects unit :=
  match fuel with
  | O => ret tt
  | S fuel' =>
      n <- length ;;
      if 0 <? n then remove 0 ;; removeWhileNotEmpty fuel' else ret tt
  end.

(** The second loop of [deserialize], over the elements of
    [serializedProjects]. *)
Fixpoint addDeserialized (serializedProjects : list jsstring) : M Projects unit :=
  match serializedProjects with
  | [] => ret tt
  | serializedProject :: rest =>
      '(_, project) <-
        on (Project.new []) (Project.deserialize serializedProject) ;;
      add project ;;
      addDeserialized rest
  end.

Definition deserialize (serialized : jsstring) : M Projects unit :=
  this <- self ;;
  removeWhileNotEmpty (List.length (_projects this)) ;;
  addDeserialized (split 124 serialized).

End Projects.

(** ** The project list and the DOM storage *)

(** The global variables [projects] and [lastSerializedProjectsString], and
    what the DOM storage holds under [PROJECTS_DOM_STORAGE_KEY]
    ([Undefined] when the key is absent).  The storage is [localStorage]. *)
Record App : Type := {
  projects : Projects;
  lastSerializedProjectsString : value;
  storage : value
}.

(** A method of the global [projects] object, called from a function of the
    application. *)
Definition onProjects {A} (m : M Projects A) : M App A :=
  fun app =>
    let '(r, ps, evs) := m (projects app) in
    (r,
     {| projects := ps;
        lastSerializedProjectsString := lastSerializedProjectsString app;
        storage := storage app |},
     evs).

Definition set_lastSerializedProjectsString (v : value) : M App unit :=
  app <- self ;;
  set_self {| projects := projects app;
              lastSerializedProjectsString := v;
              storage := storage app |}.

Definition set_storage (v : value) : M App unit :=
  app <- self ;;
  set_self {| projects := projects app;
              lastSerializedProjectsString := lastSerializedProjectsString app;
              storage := v |}.

Definition saveProjects : M App unit :=
  serializedProjectsString <- onProjects Projects.serialize ;;
  set_storage (Str serializedProjectsString) ;;
  set_lastSerializedProjectsString (Str serializedProjectsString).

Definition loadSerializedProjectsString : M App value :=
  app <- self ;; ret (storage app).

Definition loadProjects : M App unit :=
  serializedProjectsString <- loadSerializedProjectsString ;;
  match serializedProjectsString with
  | Str s =>
      onProjects (Projects.deserialize s) ;;
      set_lastSerializedProjectsString serializedProjectsString
  | Undefined => ret tt
  end.

Definition projectsHaveChangedOutsideApplication : M App bool :=
  stored <- loadSerializedProjectsString ;;
  app <- self ;;
  ret (negb (value_eqb stored (lastSerializedProjectsString app))).

(** ** The part of the view the timer runs *)

Definition computeStartStopLinkImageUrl (state : value) : result jsstring :=
  if value_eqb state (Str Project.State.STOPPED) then Ok (lit "img/start.png")
  else if value_eqb state (Str Project.State.RUNNING) then Ok (lit "img/stop.png")
  else Throw (Thrown (lit "Invalid project state.")).

(** The row is known by its index.  The refresh only reads the project (its
    state and the time spent); it is an entry of the log, made once the image
    of the start/stop link is known, which raises on an invalid state. *)
Definition updateProjectRow {St} (row : nat) (project : Project) : M St unit :=
  lift (computeStartStopLinkImageUrl (_state project)) ;;
  emit (RowUpdated row project).

(** The function that [initializeTimer] runs every ten seconds. *)
Definition timerTick : M App unit :=
  app <- self ;;
  Projects.forEach (fun project index _ => updateProjectRow index project)
                   (projects app) ;;
  changed <- projectsHaveChangedOutsideApplication ;;
  if changed then loadProjects else ret tt.

(** ** The application with its own handlers *)

(** [buildProjectRow], as far as the model goes: it raises on a project of
    invalid state, while it builds the start/stop link and before the row
    exists; otherwise it returns the row, known by its index. *)
Definition buildProjectRow (project : Project) (index : nat) : result nat :=
  rbind (computeStartStopLinkImageUrl (_state project)) (fun _ => Ok index).

Module Application.

(** The function that [initializeProjectsEventHandlers] sets as [onAdd], run
    on the list it is set on (the global [projects]).  Appending the row
    changes the page only; [project.setOnChange] sets the attribute of the
    project itself, which is the object that [add] has just pushed, the last
    of the list.  The function it sets is known by the index of its row. *)
Definition onAdd (project : Project) : M Projects unit :=
  this <- self ;;
  row <- lift (buildProjectRow project (List.length (_projects this) - 1)) ;;
  '(_, project) <- on project (Project.setOnChange (Function row)) ;;
  Projects.set_projects (removelast (_projects this) ++ [project]).

(** [Projects._callOnAdd] when a handler that is set is the function
    above: the call is logged, then the function runs. *)
Definition _callOnAdd (project : Project) : M Projects unit :=
  this <- self ;;
  match _onAdd this with
  | Function f => emit (OnAdd f project this) ;; onAdd project
  | NoFunction => ret tt
  end.

Definition add (project : Project) : M Projects unit :=
  this <- self ;;
  Projects.set_projects (_projects this ++ [project]) ;;
  _callOnAdd project.

(** The second loop of [Projects.deserialize]. *)
Fixpoint addDeserialized (serializedProjects : list jsstring) : M Projects unit :=
  match serializedProjects with
  | [] => ret tt
  | serializedProject :: rest =>
      '(_, project) <-
        on (Project.new []) (Project.deserialize serializedProject) ;;
      add project ;;
      addDeserialized rest
  end.

(** [Projects.deserialize].  The function that the application sets as
    [onRemove], [findRowWithIndex(index).remove()], changes the page only and
    raises nothing, so [Projects.remove] with its logged call is exact. *)
Definition deserialize (serialized : jsstring) : M Projects unit :=
  this <- self ;;
  Projects.removeWhileNotEmpty (List.length (_projects this)) ;;
  addDeserialized (split 124 serialized).

Definition loadProjects : M App unit :=
  serializedProjectsString <- loadSerializedProjectsString ;;
  match serializedProjectsString with
  | Str s =>
      onProjects (deserialize s) ;;
      set_lastSerializedProjectsString serializedProjectsString
  | Undefined => ret tt
  end.

(** The function that [initializeTimer] runs every ten seconds. *)
Definition timerTick : M App unit :=
  app <- self ;;
  Projects.forEach (fun project index _ => updateProjectRow index project)
                   (projects app) ;;
  changed <- projectsHaveChangedOutsideApplication ;;
  if changed then loadProjects else ret tt.

End Application.

From Stdlib Require QArith Qround.

(** ** Extensions and the formatting of times *)

(** [String.prototype.pad].  The loop runs while the result is shorter than
    [length]; [fuel] is the number of tests of its condition allowed, and
    [None] means that the loop has not ended within them. *)
Fixpoint pad (fuel : nat) (this : jsstring) (length : Z) (padding : jsstring)
  : option jsstring :=
  match fuel with
  | O => None
  | S fuel' =>
      if Z.of_nat (List.length this) <? length
      then pad fuel' (padding ++ this) length padding
      else Some this
  end.

Definition MILISECONDS_IN_SECOND : Z := 1000.
Definition MILISECONDS_IN_MINUTE : Z := 60 * MILISECONDS_IN_SECOND.
Definition MINUTES_IN_HOUR : Z := 60.

(** A number that need not be an integer: [formatTime] divides.  The
    quotients are the exact rationals; for times below 2^50 in absolute value
    the rounding of the two floating-point divisions of the source is smaller
    than the distance of the exact quotient to the next integer, so the
    floors taken below are those of the source. *)
Inductive real : Type :=
| RNaN
| Real (q : QArith_base.Q).

Definition toReal (a : num) : real :=
  match a with
  | NaN => RNaN
  | Int z => Real (QArith_base.inject_Z z)
  end.

Definition real_div (a b : real) : real :=
  match a, b with
  | Real x, Real y => Real (QArith_base.Qdiv x y)
  | _, _ => RNaN
  end.

Definition real_sub (a b : real) : real :=
  match a, b with
  | Real x, Real y => Real (QArith_base.Qminus x y)
  | _, _ => RNaN
  end.

Definition num_mul (a b : num) : num :=
  match a, b with
  | Int x, Int y => Int (x * y)
  | _, _ => NaN
  end.

Definition Math_floor (x : real) : num :=
  match x with
  | RNaN => NaN
  | Real q => Int (Qround.Qfloor q)
  end.

(** [formatTime], with the fuel of the loop of [pad]. *)
Definition formatTime (fuel : nat) (time : num) : option jsstring :=
  let timeInMinutes := real_div (toReal time) (toReal (Int MILISECONDS_IN_MINUTE)) in
  let hours :=
    Math_floor (real_div timeInMinutes (toReal (Int MINUTES_IN_HOUR))) in
  let minutes :=
    Math_floor (real_sub timeInMinutes
                  (toReal (num_mul hours (Int MINUTES_IN_HOUR)))) in
  match pad fuel (Number_toString minutes) 2 (lit "0") with
  | Some padded => Some (Number_toString hours ++ lit ":" ++ padded)
  | None => None
  end.

(** ** Notions used to state the properties *)

(** The outcome, the final object and the log of a method call. *)
Definition outcome {St A} (x : result A * St * list Event) : result A :=
  fst (fst x).
Definition final {St A} (x : result A * St * list Event) : St :=
  snd (fst x).
Definition log {St A} (x : result A * St * list Event) : list Event :=
  snd x.

(** Well-formed UTF-16 text: code units below 2^16, every surrogate paired
    ([String.prototype.isWellFormed]). *)
Fixpoint isWellFormed (s : jsstring) : bool :=
  match s with
  | [] => true
  | c :: rest =>
      if isLeadingSurrogate c then
        match rest with
        | d :: rest' => isTrailingSurrogate d && isWellFormed rest'
        | [] => false
        end
      else negb (isTrailingSurrogate c) && (0 <=? c) && (c <=? 65535)
           && isWellFormed rest
  end.

Definition validState (state : value) : Prop :=
  state = Str Project.State.STOPPED \/ state = Str Project.State.RUNNING.

(** A valid project: a name that is well-formed text, one of the two state
    tags, a non-negative accumulated time and an iteration start that are
    safe integers. *)
Definition validProject (p : Project) : Prop :=
  isWellFormed (_name p) = true
  /\ validState (_state p)
  /\ (exists t, _timeSpentInPreviousIterations p = Int t /\ 0 <= t < 2 ^ 53)
  /\ (exists t, _currentIterationStartTime p = Int t /\ safe_integer t).

(** The four stored attributes of two projects agree. *)
Definition sameFields (p q : Project) : Prop :=
  _name p = _name q
  /\ _state p = _state q
  /\ _timeSpentInPreviousIterations p = _timeSpentInPreviousIterations q
  /\ _currentIterationStartTime p = _currentIterationStartTime q.

(** One call of a method per clock reading, in order. *)
Fixpoint callEach {St A} (method : Z -> M St A) (clock : list Z)
  : M St (list A) :=
  match clock with
  | [] => ret []
  | now :: later =>
      a <- method now ;;
      rest <- callEach method later ;;
      ret (a :: rest)
  end.

(** The number of occurrences of a code unit in a string. *)
Definition occurrences (c : Z) (s : jsstring) : nat := count_occ Z.eq_dec s c.

(** The project that [Projects.deserialize] builds from one element of the
    split text. *)
Definition decodeProject (serializedProject : jsstring) : result Project :=
  match Project.deserialize serializedProject (Project.new []) with
  | (Ok _, project, _) => Ok project
  | (Throw e, _, _) => Throw e
  end.

Fixpoint decodeProjects (serializedProjects : list jsstring)
  : result (list Project) :=
  match serializedProjects with
  | [] => Ok []
  | s :: rest =>
      rbind (decodeProject s) (fun p =>
        rbind (decodeProjects rest) (fun ps => Ok (p :: ps)))
  end.

(** The calls of [onRemove] made by emptying a list whose elements are
    [remaining]: always index 0, the list shrinking from the front. *)
Fixpoint removalLog (onAdd onRemove : callback) (remaining : list Project)
  : list Event :=
  match remaining with
  | [] => []
  | _ :: rest =>
      match onRemove with
      | Function f =>
          [OnRemove f 0 {| _projects := remaining; _onAdd := onAdd;
                           _onRemove := onRemove |}]
      | NoFunction => []
      end ++ removalLog onAdd onRemove rest
  end.

(** The calls of [onAdd] made by appending [added] to a list that holds
    [present]: each call sees the list with the new project in it. *)
Fixpoint additionLog (onAdd onRemove : callback) (present added : list Project)
  : list Event :=
  match added with
  | [] => []
  | p :: rest =>
      match onAdd with
      | Function f =>
          [OnAdd f p {| _projects := present ++ [p]; _onAdd := onAdd;
                        _onRemove := onRemove |}]
      | NoFunction => []
      end ++ additionLog onAdd onRemove (present ++ [p]) rest
  end.

(** The refreshes of the rows of [remaining], the first being row [i]. *)
Fixpoint refreshLog (i : nat) (remaining : list Project) : list Event :=
  match remaining with
  | [] => []
  | p :: rest => RowUpdated i p :: refreshLog (S i) rest
  end.

(** The code units that [encodeURIComponent] can produce: the unescaped
    ones and [%]. *)
Definition uriChar (c : Z) : bool := uriUnescaped c || (c =? 37).

Definition isDecimalDigit (c : Z) : bool := (48 <=? c) && (c <=? 57).

(** The value of a string of decimal digits read after [acc]. *)
Definition decimalValue (ds : jsstring) (acc : Z) : Z :=
  fold_left (fun a c => a * 10 + (c - 48)) ds acc.

(** A project as decoding builds it: created by [new Project("")], it has no
    [onChange] handler. *)
Definition withoutHandler (p : Project) : Project :=
  {| _name := _name p;
     _state := _state p;
     _timeSpentInPreviousIterations := _timeSpentInPreviousIterations p;
     _currentIterationStartTime := _currentIterationStartTime p;
     _onChange := NoFunction |}.

Definition isOctet (b : Z) : Prop := 0 <= b < 256.

(** A code point that is a Unicode scalar value. *)
Definition isScalarValue (cp : Z) : Prop :=
  0 <= cp < 1114112 /\ ~ (55296 <= cp <= 57343).

(** [Project.serialize] on [p] returns [text]. *)
Definition serializesTo (p : Project) (text : jsstring) : Prop :=
  outcome (Project.serialize p) = Ok text.

(** The four fields that [Project.serialize] joins, given the encoded name. *)
Definition serializedFields (name : jsstring) (p : Project) : list jsstring :=
  [name;
   joinItem (_state p);
   Number_toString (_timeSpentInPreviousIterations p);
   Number_toString (_currentIterationStartTime p)].

(** What [_callOnChange] logs on [this]: one call if the [onChange]
    attribute holds a function, nothing otherwise. *)
Definition notification (this : Project) : list Event :=
  match _onChange this with
  | Function f => [OnChange f this]
  | NoFunction => []
  end.

(** A project once the application's [onAdd] has set the handler of its
    row as [onChange]. *)
Definition withRowHandler (row : nat) (p : Project) : Project :=
  {| _name := _name p;
     _state := _state p;
     _timeSpentInPreviousIterations := _timeSpentInPreviousIterations p;
     _currentIterationStartTime := _currentIterationStartTime p;
     _onChange := Function row |}.

Fixpoint withRowHandlers (row : nat) (ps : list Project) : list Project :=
  match ps with
  | [] => []
  | p :: rest => withRowHandler row p :: withRowHandlers (S row) rest
  end.

(** The projects [added] as they are in the list once they have been added,
    the first in row [row]: with the handlers of their rows if the list has
    an [onAdd] handler, as they were otherwise. *)
Definition installed (onAdd : callback) (row : nat) (added : list Project)
  : list Project :=
  match onAdd with
  | Function _ => withRowHandlers row added
  | NoFunction => added
  end.

(** The calls of [onAdd] made by the application when it appends [added] to
    a list that holds [present]: each call sees the list with the new
    project in it, before that project receives its handler. *)
Fixpoint applicationAdditionLog (onAdd onRemove : callback)
  (present added : list Project) : list Event :=
  match added with
  | [] => []
  | p :: rest =>
      match onAdd with
      | Function f =>
          [OnAdd f p {| _projects := present ++ [p]; _onAdd := onAdd;
                        _onRemove := onRemove |}]
      | NoFunction => []
      end
      ++ applicationAdditionLog onAdd onRemove
           (present ++ installed onAdd (List.length present) [p]) rest
  end.

(** ** Sample objects *)

Definition sampleAlpha : Project := Project.new (lit "Alpha").

Definition sampleBeta : Project :=
  {| _name := lit "Beta";
     _state := Str Project.State.RUNNING;
     _timeSpentInPreviousIterations := Int 12;
     _currentIterationStartTime := Int 34;
     _onChange := NoFunction |}.

Definition sampleList : Projects :=
  {| _projects := [sampleAlpha; sampleBeta];
     _onAdd := Function 1;
     _onRemove := Function 2 |}.

(** The project that decoding the empty string produces. *)
Definition blankProject : Project :=
  {| _name := [];
     _state := Undefined;
     _timeSpentInPreviousIterations := NaN;
     _currentIterationStartTime := NaN;
     _onChange := NoFunction |}.

(** The application holding [sampleList] as it was last written, while the
    storage holds a text that is not the encoding of any list. *)
Definition sampleApp : App :=
  {| projects := sampleList;
     lastSerializedProjectsString :=
       Str (lit "Alpha&stopped&0&0|Beta&running&12&34");
     storage := Str (lit "%") |}.

(** The same application once another instance has stored a list of one
    running project. *)
Definition sampleAppBehind : App :=
  {| projects := sampleList;
     lastSerializedProjectsString :=
       Str (lit "Alpha&stopped&0&0|Beta&running&12&34");
     storage := Str (lit "Gamma&running&7&1000") |}.

Definition sampleGamma : Project :=
  {| _name := lit "Gamma";
     _state := Str Project.State.RUNNING;
     _timeSpentInPreviousIterations := Int 7;
     _currentIterationStartTime := Int 1000;
     _onChange := NoFunction |}.

(** A project whose name is a lone leading surrogate: not well-formed
    text. *)
Definition sampleLoneSurrogate : Project :=
  {| _name := [55357];
     _state := Str Project.State.STOPPED;
     _timeSpentInPreviousIterations := Int 0;
     _currentIterationStartTime := Int 0;
     _onChange := Function 3 |}.

(** The code units of a JavaScript string are below 2^16. *)
Definition isCodeUnit (c : Z) : Prop := 0 <= c < 65536.

(** The projects decoded from the elements of a split text, up to the first
    element that does not decode. *)
Fixpoint decodedPrefix (serializedProjects : list jsstring) : list Project :=
  match serializedProjects with
  | [] => []
  | s :: rest =>
      match decodeProject s with
      | Ok p => p :: decodedPrefix rest
      | Throw _ => []
      end
  end.

(** What a loop over the elements of a split text returns: normally if all
    decode, else the exception of the first that does not. *)
Definition decodingOutcome (serializedProjects : list jsstring) : result unit :=
  match decodeProjects serializedProjects with
  | Ok _ => Ok tt
  | Throw e => Throw e
  end.

(** A list of three projects whose second has an invalid state. *)
Definition sampleListWithBlank : Projects :=
  {| _projects := [sampleAlpha; blankProject; sampleBeta];
     _onAdd := Function 1;
     _onRemove := Function 2 |}.

(** The application on its first run: nothing stored, nothing written. *)
Definition sampleAppFirstRun : App :=
  {| projects := sampleList;
     lastSerializedProjectsString := Undefined;
     storage := Undefined |}.

(** The application whose list holds a project of invalid state. *)
Definition sampleAppWithBlank : App :=
  {| projects := sampleListWithBlank;
     lastSerializedProjectsString := Str [];
     storage := Str (lit "Gamma&running&7&1000") |}.

(** The list of a running application: its two projects have received the
    handlers of their rows from the application's [onAdd]. *)
Definition sampleInstalledList : Projects :=
  {| _projects := withRowHandlers 0 [sampleAlpha; sampleBeta];
     _onAdd := Function 1;
     _onRemove := Function 2 |}.

(** The running application, having last written the text of its list,
    while the storage holds [stored]. *)
Definition applicationStoring (stored : jsstring) : App :=
  {| projects := sampleInstalledList;
     lastSerializedProjectsString :=
       Str (lit "Alpha&stopped&0&0|Beta&running&12&34");
     storage := Str stored |}.

(** The running application after a tick has decoded the empty string, once
    another instance has stored a list of one project. *)
Definition applicationAfterEmptyText : App :=
  {| projects :=
       {| _projects := [blankProject]; _onAdd := Function 1;
          _onRemove := Function 2 |};
     lastSerializedProjectsString :=
       Str (lit "Alpha&stopped&0&0|Beta&running&12&34");
     storage := Str (lit "Gamma&running&7&1000") |}.

(** * Properties *)

(** ** The monad *)

Lemma bind_ok {St A B} (m : M St A) (k : A -> M St B) s a s' evs :
  m s = (Ok a, s', evs) ->
  bind m k s = (outcome (k a s'), final (k a s'), evs ++ log (k a s')).
Proof.
  intros H. unfold bind. rewrite H.
  destruct (k a s') as [[r s''] evs']. reflexivity.
Qed.

Lemma on_ok {St O A} (o : O) (m : M O A) (s : St) a o' evs :
  m o = (Ok a, o', evs) -> on o m s = (Ok (a, o'), s, evs).
Proof. intros H. unfold on. now rewrite H. Qed.

Lemma jsstring_eqb_eq a b : jsstring_eqb a b = true <-> a = b.
Proof.
  revert b. induction a as [|x a IH]; intros [|y b]; simpl;
    try (split; [discriminate | discriminate]); try tauto.
  rewrite andb_true_iff, Z.eqb_eq, IH. split.
  - intros [-> ->]. reflexivity.
  - intros [= -> ->]. auto.
Qed.

Lemma value_eqb_eq a b : value_eqb a b = true <-> a = b.
Proof.
  destruct a, b; simpl; try (split; [discriminate | discriminate]); try tauto.
  rewrite jsstring_eqb_eq. split; [intros -> | intros [= ->]]; reflexivity.
Qed.

(** ** Time accounting of a project *)

Lemma getTimeSpent_returns now this :
  Project.getTimeSpent now this
  = (Ok (if value_eqb (_state this) (Str Project.State.RUNNING)
         then num_add (_timeSpentInPreviousIterations this)
                      (num_sub (Int now) (_currentIterationStartTime this))
         else _timeSpentInPreviousIterations this),
     this, []).
Proof.
  unfold Project.getTimeSpent, Project._getCurrentIterationTime, bind, self, ret.
  destruct (value_eqb (_state this) (Str Project.State.RUNNING)); reflexivity.
Qed.

(** C5. [getTimeSpent] never mutates the project: whatever the state of the
    project and however many times it is called (once per clock reading of
    [clock]), every call returns a time, the project afterwards is the project
    before (name, state, accumulated time, iteration start and [onChange]
    attribute) and no handler has been called. *)
Theorem getTimeSpent_never_mutates (clock : list Z) (this : Project) :
  exists times,
    callEach Project.getTimeSpent clock this = (Ok times, this, [])
    /\ List.length times = List.length clock.
Proof.
  induction clock as [|now later [times [IH Hlen]]]; simpl.
  - exists []. split; reflexivity.
  - eexists (_ :: times). split.
    + rewrite (bind_ok _ _ _ _ _ _ (getTimeSpent_returns now this)).
      rewrite (bind_ok _ _ _ _ _ _ IH). reflexivity.
    + simpl. now rewrite Hlen.
Qed.

(** C8. On a stopped project [getTimeSpent] returns exactly the accumulated
    time, whatever the clock shows. *)
Theorem getTimeSpent_stopped (now : Z) (this : Project) :
  _state this = Str Project.State.STOPPED ->
  Project.getTimeSpent now this
  = (Ok (_timeSpentInPreviousIterations this), this, []).
Proof.
  intros Hs. rewrite getTimeSpent_returns, Hs. reflexivity.
Qed.

Lemma getTimeSpent_stopped_witness :
  Project.getTimeSpent 1500 (Project.new (lit "Alpha"))
  = (Ok (Int 0), Project.new (lit "Alpha"), []).
Proof. apply (getTimeSpent_stopped 1500 (Project.new (lit "Alpha"))). reflexivity. Defined.

Lemma start_stopped now this :
  _state this = Str Project.State.STOPPED ->
  Project.start now this
  = (Ok tt,
     {| _name := _name this;
        _state := Str Project.State.RUNNING;
        _timeSpentInPreviousIterations := _timeSpentInPreviousIterations this;
        _currentIterationStartTime := Int now;
        _onChange := _onChange this |},
     match _onChange this with
     | Function f =>
         [OnChange f
            {| _name := _name this;
               _state := Str Project.State.RUNNING;
               _timeSpentInPreviousIterations :=
                 _timeSpentInPreviousIterations this;
               _currentIterationStartTime := Int now;
               _onChange := _onChange this |}]
     | NoFunction => []
     end).
Proof.
  intros Hs. unfold Project.start, bind at 1, self at 1. rewrite Hs.
  destruct this as [n s t c h]; simpl in *. destruct h; reflexivity.
Qed.

Lemma stop_running now this :
  _state this = Str Project.State.RUNNING ->
  Project.stop now this
  = (Ok tt,
     {| _name := _name this;
        _state := Str Project.State.STOPPED;
        _timeSpentInPreviousIterations :=
          num_add (_timeSpentInPreviousIterations this)
                  (num_sub (Int now) (_currentIterationStartTime this));
        _currentIterationStartTime := Int 0;
        _onChange := _onChange this |},
     match _onChange this with
     | Function f =>
         [OnChange f
            {| _name := _name this;
               _state := Str Project.State.STOPPED;
               _timeSpentInPreviousIterations :=
                 num_add (_timeSpentInPreviousIterations this)
                         (num_sub (Int now) (_currentIterationStartTime this));
               _currentIterationStartTime := Int 0;
               _onChange := _onChange this |}]
     | NoFunction => []
     end).
Proof.
  intros Hs. unfold Project.stop, bind at 1, self at 1. rewrite Hs.
  destruct this as [n s t c h]; simpl in *. destruct h; reflexivity.
Qed.

(** C6. On a stopped project whose accumulated time is the integer [spent],
    [start()] at clock reading [t1] followed by [stop()] at clock reading [t2]
    returns normally, leaves the iteration start at 0 and the state stopped,
    and the accumulated time has grown by at least (in fact exactly) the time
    [t2 - t1] elapsed between the two calls.  The accumulated time, the two
    clock readings, their difference and the new accumulated time are safe
    integers, the range in which the additions of the code are exact. *)
Theorem start_then_stop (t1 t2 spent : Z) (this : Project) :
  _state this = Str Project.State.STOPPED ->
  _timeSpentInPreviousIterations this = Int spent ->
  safe_integer spent -> safe_integer t1 -> safe_integer t2 ->
  safe_integer (t2 - t1) -> safe_integer (spent + (t2 - t1)) ->
  exists spent',
    outcome ((Project.start t1 ;; Project.stop t2) this) = Ok tt
    /\ _currentIterationStartTime
         (final ((Project.start t1 ;; Project.stop t2) this)) = Int 0
    /\ _state (final ((Project.start t1 ;; Project.stop t2) this))
       = Str Project.State.STOPPED
    /\ _timeSpentInPreviousIterations
         (final ((Project.start t1 ;; Project.stop t2) this)) = Int spent'
    /\ safe_integer spent'
    /\ spent' - spent >= t2 - t1.
Proof.
  intros Hs Ht Hspent Ht1 Ht2 Hdiff Hsum. exists (spent + (t2 - t1)).
  rewrite (bind_ok _ _ _ _ _ _ (start_stopped t1 this Hs)).
  rewrite stop_running by reflexivity.
  unfold outcome, final; simpl. rewrite Ht. simpl.
  repeat split; try reflexivity; try (apply Hsum); lia.
Qed.

Lemma start_then_stop_witness :
  exists spent',
    outcome ((Project.start 1000 ;; Project.stop 2500) (Project.new (lit "Alpha")))
    = Ok tt
    /\ _currentIterationStartTime
         (final ((Project.start 1000 ;; Project.stop 2500)
                   (Project.new (lit "Alpha")))) = Int 0
    /\ _state (final ((Project.start 1000 ;; Project.stop 2500)
                        (Project.new (lit "Alpha"))))
       = Str Project.State.STOPPED
    /\ _timeSpentInPreviousIterations
         (final ((Project.start 1000 ;; Project.stop 2500)
                   (Project.new (lit "Alpha")))) = Int spent'
    /\ safe_integer spent'
    /\ spent' - 0 >= 2500 - 1000.
Proof.
  apply (start_then_stop 1000 2500 0 (Project.new (lit "Alpha")));
    try reflexivity; unfold safe_integer; lia.
Defined.

(** C7. On a running project, [reset()] returns normally having issued the
    change notification exactly twice: first from the implicit [stop()], when
    the project is stopped and still holds its time, then once the time has
    been set to zero; when the [onChange] attribute holds a function [f],
    these are exactly two calls of [f].  It leaves the accumulated time at 0
    and the state stopped. *)
Theorem reset_running_fires_twice (now : Z) (this : Project) :
  _state this = Str Project.State.RUNNING ->
  exists afterStop afterReset,
    Project.reset now this
    = (Ok tt, afterReset, notification afterStop ++ notification afterReset)
    /\ (forall f, _onChange this = Function f ->
         log (Project.reset now this)
         = [OnChange f afterStop; OnChange f afterReset])
    /\ _state afterStop = Str Project.State.STOPPED
    /\ _timeSpentInPreviousIterations afterStop
       = num_add (_timeSpentInPreviousIterations this)
                 (num_sub (Int now) (_currentIterationStartTime this))
    /\ _timeSpentInPreviousIterations afterReset = Int 0
    /\ _state afterReset = Str Project.State.STOPPED.
Proof.
  intros Hs. unfold Project.reset.
  rewrite (bind_ok _ _ _ _ _ _ (stop_running now this Hs)).
  exists {| _name := _name this;
            _state := Str Project.State.STOPPED;
            _timeSpentInPreviousIterations :=
              num_add (_timeSpentInPreviousIterations this)
                      (num_sub (Int now) (_currentIterationStartTime this));
            _currentIterationStartTime := Int 0;
            _onChange := _onChange this |},
         {| _name := _name this;
            _state := Str Project.State.STOPPED;
            _timeSpentInPreviousIterations := Int 0;
            _currentIterationStartTime := Int 0;
            _onChange := _onChange this |}.
  split; [|split].
  - unfold notification, outcome, final, log.
    destruct (_onChange this); reflexivity.
  - intros f Hf. unfold log. rewrite Hf. reflexivity.
  - simpl. auto.
Qed.

Lemma reset_running_fires_twice_witness :
  exists afterStop afterReset,
    Project.reset 100
      {| _name := lit "Alpha"; _state := Str Project.State.RUNNING;
         _timeSpentInPreviousIterations := Int 5;
         _currentIterationStartTime := Int 40; _onChange := Function 7 |}
    = (Ok tt, afterReset, [OnChange 7 afterStop; OnChange 7 afterReset])
    /\ _timeSpentInPreviousIterations afterStop = Int 65
    /\ _timeSpentInPreviousIterations afterReset = Int 0
    /\ _state afterReset = Str Project.State.STOPPED.
Proof.
  destruct (reset_running_fires_twice 100
              {| _name := lit "Alpha"; _state := Str Project.State.RUNNING;
                 _timeSpentInPreviousIterations := Int 5;
                 _currentIterationStartTime := Int 40;
                 _onChange := Function 7 |} eq_refl)
    as [afterStop [afterReset [Hreset [Hcalls [_ [Hstop [Hzero Hstate]]]]]]].
  exists afterStop, afterReset.
  specialize (Hcalls 7%nat eq_refl). rewrite Hreset in Hcalls.
  unfold log in Hcalls; cbn [snd] in Hcalls. rewrite Hcalls in Hreset.
  split; [exact Hreset|]. split; [exact Hstop|]. split; assumption.
Defined.

Lemma deserialize_returns serialized this :
  Project.deserialize serialized this
  = match decodeURIComponent (ToString (index (split 38 serialized) 0)) with
    | Ok name =>
        (Ok tt,
         {| _name := name;
            _state := index (split 38 serialized) 1;
            _timeSpentInPreviousIterations :=
              parseInt (index (split 38 serialized) 2);
            _currentIterationStartTime :=
              parseInt (index (split 38 serialized) 3);
            _onChange := _onChange this |},
         [])
    | Throw e => (Throw e, this, [])
    end.
Proof.
  unfold Project.deserialize, bind at 1, lift.
  destruct (decodeURIComponent (ToString (index (split 38 serialized) 0)));
    reflexivity.
Qed.

(** C9, at an input where the code departs from it: the name field [%] does
    not percent-decode, [decodeURIComponent] raises [URIError] before the
    first assignment, and no attribute is set from the parsed fields (the
    state stays "running" and the times stay 12 and 34, the parsed fields
    being [undefined] and [NaN]). *)
Lemma deserialize_undecodable_name :
  Project.deserialize (lit "%") sampleBeta = (Throw URIError, sampleBeta, [])
  /\ _state sampleBeta <> index (split 38 (lit "%")) 1
  /\ _timeSpentInPreviousIterations sampleBeta
     <> parseInt (index (split 38 (lit "%")) 2).
Proof. repeat split; discriminate. Qed.

(** C9, amended.  For every input string, [Project.deserialize] calls no
    handler and leaves the [onChange] attribute as it was.  When the name
    field percent-decodes, it returns normally and the name, the state, the
    accumulated time and the iteration start are the parsed fields; when
    [decodeURIComponent] raises, the exception propagates before any
    assignment and the project is unchanged. *)
Theorem deserialize_is_silent (serialized : jsstring) (this : Project) :
  log (Project.deserialize serialized this) = []
  /\ _onChange (final (Project.deserialize serialized this)) = _onChange this
  /\ match decodeURIComponent (ToString (index (split 38 serialized) 0)) with
     | Ok name =>
         outcome (Project.deserialize serialized this) = Ok tt
         /\ _name (final (Project.deserialize serialized this)) = name
         /\ _state (final (Project.deserialize serialized this))
            = index (split 38 serialized) 1
         /\ _timeSpentInPreviousIterations
              (final (Project.deserialize serialized this))
            = parseInt (index (split 38 serialized) 2)
         /\ _currentIterationStartTime
              (final (Project.deserialize serialized this))
            = parseInt (index (split 38 serialized) 3)
     | Throw e =>
         outcome (Project.deserialize serialized this) = Throw e
         /\ final (Project.deserialize serialized this) = this
     end.
Proof.
  rewrite deserialize_returns.
  destruct (decodeURIComponent (ToString (index (split 38 serialized) 0)));
    simpl; auto 10.
Qed.

(** ** The list of projects *)

Lemma remove_returns index this :
  Projects.remove index this
  = (Ok tt,
     {| _projects := splice1 (_projects this) index;
        _onAdd := _onAdd this;
        _onRemove := _onRemove this |},
     match _onRemove this with
     | Function f => [OnRemove f index this]
     | NoFunction => []
     end).
Proof.
  unfold Projects.remove, Projects._callOnRemove, bind at 1, bind at 1, self at 1.
  destruct this as [l a r]; simpl. destruct r; reflexivity.
Qed.

Lemma add_returns project this :
  Projects.add project this
  = (Ok tt,
     {| _projects := _projects this ++ [project];
        _onAdd := _onAdd this;
        _onRemove := _onRemove this |},
     match _onAdd this with
     | Function f =>
         [OnAdd f project
            {| _projects := _projects this ++ [project];
               _onAdd := _onAdd this;
               _onRemove := _onRemove this |}]
     | NoFunction => []
     end).
Proof.
  unfold Projects.add, Projects._callOnAdd.
  destruct this as [l a r]; simpl. destruct a; reflexivity.
Qed.

Lemma splice1_in_range {A} (array : list A) (index : Z) :
  0 <= index < Z.of_nat (List.length array) ->
  splice1 array index
  = firstn (Z.to_nat index) array ++ skipn (S (Z.to_nat index)) array.
Proof.
  intros H. unfold splice1.
  destruct (Z.ltb_spec index 0); [lia|].
  rewrite Z.min_l by lia.
  replace (Z.min (Z.max 1 0) (Z.of_nat (List.length array) - index)) with 1
    by lia.
  now replace (Z.to_nat (index + 1)) with (S (Z.to_nat index)) by lia.
Qed.

Lemma splice1_past_end {A} (array : list A) (index : Z) :
  Z.of_nat (List.length array) <= index -> splice1 array index = array.
Proof.
  intros H. unfold splice1.
  destruct (Z.ltb_spec index 0); [lia|].
  rewrite Z.min_r by lia.
  replace (Z.min (Z.max 1 0)
             (Z.of_nat (List.length array) - Z.of_nat (List.length array)))
    with 0 by lia.
  rewrite Z.add_0_r, Nat2Z.id, firstn_all, skipn_all. apply app_nil_r.
Qed.

Lemma splice1_head {A} (a : A) (array : list A) : splice1 (a :: array) 0 = array.
Proof.
  rewrite splice1_in_range; [reflexivity|].
  simpl List.length. lia.
Qed.

(** Removal at an index inside [0, length): [remove] calls [onRemove] with
    that index while the list still holds the element, then the list is one
    element shorter, the elements before the index stay and those after it
    move down by one. *)
Lemma remove_in_range (index : Z) (this : Projects) :
  0 <= index < Z.of_nat (List.length (_projects this)) ->
  outcome (Projects.remove index this) = Ok tt
  /\ log (Projects.remove index this)
     = match _onRemove this with
       | Function f => [OnRemove f index this]
       | NoFunction => []
       end
  /\ S (List.length (_projects (final (Projects.remove index this))))
     = List.length (_projects this)
  /\ (forall j, (j < Z.to_nat index)%nat ->
        nth_error (_projects (final (Projects.remove index this))) j
        = nth_error (_projects this) j)
  /\ (forall j, (Z.to_nat index <= j)%nat ->
        nth_error (_projects (final (Projects.remove index this))) j
        = nth_error (_projects this) (S j)).
Proof.
  intros H. rewrite remove_returns. unfold outcome, log, final; simpl.
  rewrite splice1_in_range by assumption.
  set (i := Z.to_nat index). set (l := _projects this) in *.
  assert (Hi : (i < List.length l)%nat) by lia.
  assert (Hf : List.length (firstn i l) = i)
    by (rewrite length_firstn; lia).
  repeat split.
  - rewrite length_app, Hf, length_skipn. lia.
  - intros j Hj. rewrite nth_error_app1 by lia. rewrite nth_error_firstn.
    now destruct (Nat.ltb_spec j i); [|lia].
  - intros j Hj. rewrite nth_error_app2; rewrite Hf; [|exact Hj].
    rewrite nth_error_skipn.
    replace (S i + (j - i))%nat with (S j) by lia. reflexivity.
Qed.

(** Removal at an index at or past the length leaves the list as it was. *)
Lemma remove_past_end (index : Z) (this : Projects) :
  Z.of_nat (List.length (_projects this)) <= index ->
  _projects (final (Projects.remove index this)) = _projects this.
Proof.
  intros H. rewrite remove_returns. unfold final; simpl.
  now apply splice1_past_end.
Qed.

(** C2, at the inputs where the code departs from it.  [remove] calls
    [onRemove] before looking at the index, so a handler is called for every
    index, also one outside [0, length): here index 5 on a list of two.  And
    [splice] counts a negative index from the end: index -1 removes the last
    project. *)
Theorem remove_out_of_range_notifies :
  (forall l onAdd f index,
      log (Projects.remove index
             {| _projects := l; _onAdd := onAdd; _onRemove := Function f |})
      = [OnRemove f index
           {| _projects := l; _onAdd := onAdd; _onRemove := Function f |}])
  /\ log (Projects.remove 5 sampleList) = [OnRemove 2 5 sampleList]
  /\ _projects (final (Projects.remove 5 sampleList)) = _projects sampleList
  /\ log (Projects.remove (-1) sampleList) = [OnRemove 2 (-1) sampleList]
  /\ _projects (final (Projects.remove (-1) sampleList)) = [sampleAlpha].
Proof.
  split; [|repeat split; reflexivity].
  intros. rewrite remove_returns. reflexivity.
Qed.

Lemma length_returns this :
  Projects.length this = (Ok (Z.of_nat (List.length (_projects this))), this, []).
Proof. reflexivity. Qed.

Lemma removeWhileNotEmpty_empties onAdd onRemove l :
  forall fuel, (List.length l <= fuel)%nat ->
  Projects.removeWhileNotEmpty fuel
    {| _projects := l; _onAdd := onAdd; _onRemove := onRemove |}
  = (Ok tt,
     {| _projects := []; _onAdd := onAdd; _onRemove := onRemove |},
     removalLog onAdd onRemove l).
Proof.
  induction l as [|p l IH]; intros fuel Hfuel.
  - destruct fuel; reflexivity.
  - destruct fuel as [|fuel]; [simpl in Hfuel; lia|].
    cbn [Projects.removeWhileNotEmpty].
    rewrite (bind_ok _ _ _ _ _ _ (length_returns _)).
    cbn [_projects List.length].
    destruct (Z.ltb_spec 0 (Z.of_nat (S (List.length l)))); [|lia].
    rewrite (bind_ok _ _ _ _ _ _ (remove_returns 0 _)).
    cbn [_projects _onAdd _onRemove]. rewrite splice1_head.
    rewrite IH by (simpl in Hfuel; lia).
    unfold outcome, final, log; cbn [fst snd removalLog].
    destruct onRemove; reflexivity.
Qed.

Lemma decodeProject_returns serializedProject project :
  decodeProject serializedProject = Ok project ->
  Project.deserialize serializedProject (Project.new [])
  = (Ok tt, project, []).
Proof.
  unfold decodeProject. rewrite deserialize_returns.
  destruct (decodeURIComponent _); [intros [= <-]; reflexivity | discriminate].
Qed.

Lemma addDeserialized_appends onAdd onRemove serializedProjects :
  forall decoded present,
  decodeProjects serializedProjects = Ok decoded ->
  Projects.addDeserialized serializedProjects
    {| _projects := present; _onAdd := onAdd; _onRemove := onRemove |}
  = (Ok tt,
     {| _projects := present ++ decoded; _onAdd := onAdd;
        _onRemove := onRemove |},
     additionLog onAdd onRemove present decoded).
Proof.
  induction serializedProjects as [|s rest IH]; intros decoded present Hd.
  - injection Hd as <-. simpl. now rewrite app_nil_r.
  - simpl in Hd. destruct (decodeProject s) as [p|] eqn:Hp; [|discriminate].
    destruct (decodeProjects rest) as [ps|] eqn:Hps; [|discriminate].
    injection Hd as <-.
    cbn [Projects.addDeserialized].
    unfold bind at 1, on. rewrite (decodeProject_returns _ _ Hp).
    rewrite (bind_ok _ _ _ _ _ _ (add_returns p _)).
    cbn [_projects _onAdd _onRemove].
    rewrite (IH ps (present ++ [p]) eq_refl).
    unfold outcome, final, log; cbn [fst snd additionLog app].
    rewrite <- app_assoc. reflexivity.
Qed.

Lemma deserialize_replaces serialized decoded this :
  decodeProjects (split 124 serialized) = Ok decoded ->
  Projects.deserialize serialized this
  = (Ok tt,
     {| _projects := decoded; _onAdd := _onAdd this;
        _onRemove := _onRemove this |},
     removalLog (_onAdd this) (_onRemove this) (_projects this)
     ++ additionLog (_onAdd this) (_onRemove this) [] decoded).
Proof.
  intros Hd. destruct this as [l a r]. unfold Projects.deserialize.
  unfold bind at 1, self at 1. cbn [_projects _onAdd _onRemove].
  rewrite (bind_ok _ _ _ _ _ _ (removeWhileNotEmpty_empties a r l _ (le_n _))).
  rewrite (addDeserialized_appends a r _ decoded [] Hd).
  reflexivity.
Qed.

Lemma serialize_of_no_project onAdd onRemove :
  Projects.serialize
    {| _projects := []; _onAdd := onAdd; _onRemove := onRemove |}
  = (Ok [], {| _projects := []; _onAdd := onAdd; _onRemove := onRemove |}, []).
Proof. reflexivity. Qed.

Lemma decodeProjects_of_empty_string :
  decodeProjects (split 124 []) = Ok [blankProject].
Proof. reflexivity. Qed.

(** C1, at the input where the code departs from it.  Encoding a list of no
    project yields the empty string, but decoding the empty string, into any
    list, returns normally with exactly one project in the list: its name
    is empty, its state is [undefined] and its two times are [NaN].  The view
    of the application itself rejects that state. *)
Theorem deserialize_of_empty_string_adds_a_project :
  (forall onAdd onRemove,
      outcome (Projects.serialize
                 {| _projects := []; _onAdd := onAdd; _onRemove := onRemove |})
      = Ok [])
  /\ (forall this,
        outcome (Projects.deserialize [] this) = Ok tt
        /\ _projects (final (Projects.deserialize [] this)) = [blankProject])
  /\ computeStartStopLinkImageUrl (_state blankProject)
     = Throw (Thrown (lit "Invalid project state.")).
Proof.
  split; [|split].
  - intros. now rewrite serialize_of_no_project.
  - intros this.
    rewrite (deserialize_replaces [] _ this decodeProjects_of_empty_string).
    split; reflexivity.
  - reflexivity.
Qed.

(** C3, at the input where the code departs from it.  The list of no project
    encodes to a text whose decoding holds one project: the round trip does
    not preserve the length of the empty list. *)
Theorem roundtrip_of_empty_list_gains_a_project :
  forall onAdd onRemove,
  exists text,
    outcome (Projects.serialize
               {| _projects := []; _onAdd := onAdd; _onRemove := onRemove |})
    = Ok text
    /\ List.length
         (_projects
            (final (Projects.deserialize text
                      {| _projects := []; _onAdd := onAdd;
                         _onRemove := onRemove |})))
       = 1%nat.
Proof.
  intros. exists []. rewrite serialize_of_no_project. split; [reflexivity|].
  now rewrite (deserialize_replaces [] _ _ decodeProjects_of_empty_string).
Qed.

(** ** The storage synchronization *)

Lemma refresh_returns {St} (this : Projects) (s : St) l :
  forall i,
  Forall (fun p => validState (_state p)) l ->
  Projects.forEach_from (fun project index _ => updateProjectRow index project)
    this i l s
  = (Ok tt, s, refreshLog i l).
Proof.
  induction l as [|p l IH]; intros i Hl; [reflexivity|].
  inversion Hl as [|? ? Hp Hl']; subst.
  cbn [Projects.forEach_from].
  assert (Hrow : updateProjectRow (St := St) i p s = (Ok tt, s, [RowUpdated i p])).
  { unfold updateProjectRow. destruct Hp as [-> | ->]; reflexivity. }
  rewrite (bind_ok _ _ _ _ _ _ Hrow), (IH (S i) Hl'). reflexivity.
Qed.

Lemma timerTick_absent_storage app :
  Forall (fun p => validState (_state p)) (_projects (projects app)) ->
  storage app = Undefined ->
  timerTick app = (Ok tt, app, refreshLog 0 (_projects (projects app))).
Proof.
  intros Hvalid Hs. unfold timerTick. unfold bind at 1, self at 1.
  unfold Projects.forEach.
  rewrite (bind_ok _ _ _ _ _ _
             (refresh_returns (projects app) app _ 0%nat Hvalid)).
  unfold projectsHaveChangedOutsideApplication, loadProjects,
    loadSerializedProjectsString.
  destruct app as [ps last st]; simpl in Hs; subst st.
  destruct last; cbn; now rewrite app_nil_r.
Qed.

Lemma application_add_returns a r present p :
  Application.add p {| _projects := present; _onAdd := a; _onRemove := r |}
  = match a with
    | NoFunction =>
        (Ok tt,
         {| _projects := present ++ [p]; _onAdd := a; _onRemove := r |}, [])
    | Function f =>
        match computeStartStopLinkImageUrl (_state p) with
        | Ok _ =>
            (Ok tt,
             {| _projects := present ++ [withRowHandler (List.length present) p];
                _onAdd := a; _onRemove := r |},
             [OnAdd f p {| _projects := present ++ [p]; _onAdd := a;
                           _onRemove := r |}])
        | Throw e =>
            (Throw e,
             {| _projects := present ++ [p]; _onAdd := a; _onRemove := r |},
             [OnAdd f p {| _projects := present ++ [p]; _onAdd := a;
                           _onRemove := r |}])
        end
    end.
Proof.
  unfold Application.add, Application._callOnAdd, Application.onAdd,
    buildProjectRow.
  destruct a as [|f]; [reflexivity|].
  cbn. destruct (computeStartStopLinkImageUrl (_state p)); [|reflexivity].
  cbn. rewrite removelast_last, length_app. cbn [List.length].
  replace (List.length present + 1 - 1)%nat with (List.length present) by lia.
  reflexivity.
Qed.

Lemma withRowHandlers_sameFields ps :
  forall row, Forall2 sameFields (withRowHandlers row ps) ps.
Proof.
  induction ps as [|p ps IH]; intros row; constructor;
    [repeat split | apply IH].
Qed.

Lemma installed_sameFields a row ps : Forall2 sameFields (installed a row ps) ps.
Proof.
  destruct a; simpl; [|apply withRowHandlers_sameFields].
  induction ps; constructor; [repeat split | assumption].
Qed.

Lemma length_installed_one a row p :
  List.length (installed a row [p]) = 1%nat.
Proof. now destruct a. Qed.

Lemma installed_cons a row p ps :
  installed a row (p :: ps) = installed a row [p] ++ installed a (S row) ps.
Proof. now destruct a. Qed.

(** The second loop of [deserialize] over elements that decode to projects
    of valid state: they are added, each receiving the handler of its row,
    and the loop goes on with the elements that follow. *)
Lemma application_addDeserialized_prefix a r more good :
  forall decoded present,
  decodeProjects good = Ok decoded ->
  Forall (fun p => validState (_state p)) decoded ->
  Application.addDeserialized (good ++ more)
    {| _projects := present; _onAdd := a; _onRemove := r |}
  = (outcome (Application.addDeserialized more
                {| _projects := present
                                ++ installed a (List.length present) decoded;
                   _onAdd := a; _onRemove := r |}),
     final (Application.addDeserialized more
              {| _projects := present
                              ++ installed a (List.length present) decoded;
                 _onAdd := a; _onRemove := r |}),
     applicationAdditionLog a r present decoded
     ++ log (Application.addDeserialized more
               {| _projects := present
                               ++ installed a (List.length present) decoded;
                  _onAdd := a; _onRemove := r |})).
Proof.
  induction good as [|s good IH]; intros decoded present Hd Hvalid.
  - injection Hd as <-.
    replace (present ++ installed a (List.length present) [])
      with present by (destruct a; simpl; now rewrite app_nil_r).
    cbn [app applicationAdditionLog].
    destruct (Application.addDeserialized more _) as [[r0 s0] evs0].
    reflexivity.
  - simpl in Hd. destruct (decodeProject s) as [p|] eqn:Hp; [|discriminate].
    destruct (decodeProjects good) as [ps|] eqn:Hps; [|discriminate].
    injection Hd as <-. inversion Hvalid as [|? ? Hpv Hpsv]; subst.
    cbn [app Application.addDeserialized].
    unfold bind at 1, on. rewrite (decodeProject_returns _ _ Hp).
    assert (Hadd :
      Application.add p {| _projects := present; _onAdd := a; _onRemove := r |}
      = (Ok tt,
         {| _projects := present ++ installed a (List.length present) [p];
            _onAdd := a; _onRemove := r |},
         match a with
         | Function f =>
             [OnAdd f p {| _projects := present ++ [p]; _onAdd := a;
                           _onRemove := r |}]
         | NoFunction => []
         end)).
    { rewrite application_add_returns. destruct a as [|f]; [reflexivity|].
      destruct Hpv as [-> | ->]; reflexivity. }
    rewrite (bind_ok _ _ _ _ _ _ Hadd).
    rewrite (IH ps _ eq_refl Hpsv).
    rewrite length_app, length_installed_one.
    replace (List.length present + 1)%nat with (S (List.length present))
      by lia.
    rewrite (installed_cons a (List.length present) p ps), <- !app_assoc.
    unfold outcome, final, log; cbn [fst snd applicationAdditionLog].
    rewrite <- !app_assoc. reflexivity.
Qed.

Lemma application_deserialize_prefix serialized good more decoded this :
  split 124 serialized = good ++ more ->
  decodeProjects good = Ok decoded ->
  Forall (fun p => validState (_state p)) decoded ->
  Application.deserialize serialized this
  = (outcome (Application.addDeserialized more
                {| _projects := installed (_onAdd this) 0 decoded;
                   _onAdd := _onAdd this; _onRemove := _onRemove this |}),
     final (Application.addDeserialized more
              {| _projects := installed (_onAdd this) 0 decoded;
                 _onAdd := _onAdd this; _onRemove := _onRemove this |}),
     removalLog (_onAdd this) (_onRemove this) (_projects this)
     ++ applicationAdditionLog (_onAdd this) (_onRemove this) [] decoded
     ++ log (Application.addDeserialized more
               {| _projects := installed (_onAdd this) 0 decoded;
                  _onAdd := _onAdd this; _onRemove := _onRemove this |})).
Proof.
  intros Hsplit Hd Hvalid. destruct this as [l a r].
  unfold Application.deserialize.
  unfold bind at 1, self at 1. cbn [_projects _onAdd _onRemove].
  rewrite (bind_ok _ _ _ _ _ _ (removeWhileNotEmpty_empties a r l _ (le_n _))).
  rewrite Hsplit.
  rewrite (application_addDeserialized_prefix a r more good decoded [] Hd Hvalid).
  reflexivity.
Qed.

Lemma application_loadProjects_returns (app : App) (text : jsstring) :
  storage app = Str text ->
  Application.loadProjects app
  = (outcome (Application.deserialize text (projects app)),
     {| projects := final (Application.deserialize text (projects app));
        lastSerializedProjectsString :=
          match outcome (Application.deserialize text (projects app)) with
          | Ok _ => Str text
          | Throw _ => lastSerializedProjectsString app
          end;
        storage := Str text |},
     log (Application.deserialize text (projects app))).
Proof.
  intros Hs. destruct app as [ps last st]; simpl in Hs; subst st.
  unfold Application.loadProjects, loadSerializedProjectsString.
  unfold bind at 1, bind at 1, self at 1, ret at 1. cbn [storage].
  unfold bind at 1, onProjects. cbn [projects].
  destruct (Application.deserialize text ps) as [[[[]|e] ps'] evs]; cbn;
    now rewrite ?app_nil_r.
Qed.

Lemma application_tick_on_changed_text (app : App) (text : jsstring) :
  Forall (fun p => validState (_state p)) (_projects (projects app)) ->
  storage app = Str text ->
  lastSerializedProjectsString app <> Str text ->
  Application.timerTick app
  = (outcome (Application.loadProjects app),
     final (Application.loadProjects app),
     refreshLog 0 (_projects (projects app))
     ++ log (Application.loadProjects app)).
Proof.
  intros Hvalid Hs Hdiff. unfold Application.timerTick.
  unfold bind at 1, self at 1. unfold Projects.forEach.
  rewrite (bind_ok _ _ _ _ _ _
             (refresh_returns (projects app) app _ 0%nat Hvalid)).
  assert (Hchanged : projectsHaveChangedOutsideApplication app
                     = (Ok true, app, [])).
  { unfold projectsHaveChangedOutsideApplication,
      loadSerializedProjectsString. cbn. rewrite Hs.
    destruct (value_eqb (Str text) (lastSerializedProjectsString app)) eqn:E;
      [|reflexivity].
    apply value_eqb_eq in E. congruence. }
  rewrite (bind_ok _ _ _ _ _ _ Hchanged). reflexivity.
Qed.

Lemma application_tick_on_same_text (app : App) :
  Forall (fun p => validState (_state p)) (_projects (projects app)) ->
  storage app = lastSerializedProjectsString app ->
  Application.timerTick app
  = (Ok tt, app, refreshLog 0 (_projects (projects app))).
Proof.
  intros Hvalid Hsame. unfold Application.timerTick.
  unfold bind at 1, self at 1. unfold Projects.forEach.
  rewrite (bind_ok _ _ _ _ _ _
             (refresh_returns (projects app) app _ 0%nat Hvalid)).
  unfold projectsHaveChangedOutsideApplication, loadSerializedProjectsString.
  cbn. rewrite Hsame.
  rewrite (proj2 (value_eqb_eq _ _) eq_refl). cbn. now rewrite app_nil_r.
Qed.

(** C4, at three inputs where the code departs from it, in the running
    application (its two projects hold the handlers of their rows).  First
    the storage holds the text [%], which differs from the text last
    written: the tick removes the two projects, then [decodeURIComponent]
    raises [URIError]; the list is left empty and the last written text is
    not updated.  Second the storage holds the empty string: the tick
    removes the two projects, adds the one project that the empty string
    decodes to, and the application's [onAdd] raises "Invalid project
    state." while it builds the row; the last written text is not updated.
    Third, in the state that this leaves, with a decodable text of valid
    projects in the storage: the refresh of the rows raises before the
    comparison, and nothing is replaced or updated. *)
Lemma timerTick_does_not_always_synchronize :
  (lastSerializedProjectsString (applicationStoring (lit "%"))
   <> Str (lit "%")
   /\ outcome (Application.timerTick (applicationStoring (lit "%")))
      = Throw URIError
   /\ _projects (projects (final (Application.timerTick
                                    (applicationStoring (lit "%"))))) = []
   /\ lastSerializedProjectsString
        (final (Application.timerTick (applicationStoring (lit "%"))))
      <> Str (lit "%"))
  /\ (lastSerializedProjectsString (applicationStoring []) <> Str []
      /\ outcome (Application.timerTick (applicationStoring []))
         = Throw (Thrown (lit "Invalid project state."))
      /\ _projects (projects (final (Application.timerTick
                                       (applicationStoring []))))
         = [blankProject]
      /\ lastSerializedProjectsString
           (final (Application.timerTick (applicationStoring [])))
         <> Str [])
  /\ (lastSerializedProjectsString applicationAfterEmptyText
      <> storage applicationAfterEmptyText
      /\ decodeProjects (split 124 (lit "Gamma&running&7&1000"))
         = Ok [sampleGamma]
      /\ Application.timerTick applicationAfterEmptyText
         = (Throw (Thrown (lit "Invalid project state.")),
            applicationAfterEmptyText, [])).
Proof.
  repeat split; try reflexivity; discriminate.
Qed.

(** C4, amended.  On a tick of the application, with a list whose projects
    all have a valid state (so that the refresh of the rows raises nothing)
    and a text in the storage: if the text differs from the one last
    written, every element of it decodes and every decoded project has a
    valid state (so that the application's [onAdd] raises nothing), the tick
    returns normally, [onRemove] has been called with index 0 once per
    project the list held, then [onAdd] once per decoded project in order,
    the list holds exactly the decoded projects, field for field, each with
    the handler of its row, and the last written text is the stored text; if
    the text is the one last written, the tick only refreshes the rows and
    changes nothing. *)
Theorem timerTick_synchronizes (app : App) (text : jsstring) :
  Forall (fun p => validState (_state p)) (_projects (projects app)) ->
  storage app = Str text ->
  (lastSerializedProjectsString app <> Str text ->
   forall decoded,
   decodeProjects (split 124 text) = Ok decoded ->
   Forall (fun p => validState (_state p)) decoded ->
   Application.timerTick app
   = (Ok tt,
      {| projects :=
           {| _projects := installed (_onAdd (projects app)) 0 decoded;
              _onAdd := _onAdd (projects app);
              _onRemove := _onRemove (projects app) |};
         lastSerializedProjectsString := Str text;
         storage := Str text |},
      refreshLog 0 (_projects (projects app))
      ++ removalLog (_onAdd (projects app)) (_onRemove (projects app))
           (_projects (projects app))
      ++ applicationAdditionLog (_onAdd (projects app))
           (_onRemove (projects app)) [] decoded)
   /\ Forall2 sameFields (installed (_onAdd (projects app)) 0 decoded) decoded)
  /\ (lastSerializedProjectsString app = Str text ->
      Application.timerTick app
      = (Ok tt, app, refreshLog 0 (_projects (projects app)))).
Proof.
  intros Hvalid Hs. split.
  - intros Hdiff decoded Hd Hstates. split; [|apply installed_sameFields].
    rewrite (application_tick_on_changed_text app text Hvalid Hs Hdiff).
    rewrite (application_loadProjects_returns app text Hs).
    assert (Hsplit : split 124 text = split 124 text ++ [])
      by now rewrite app_nil_r.
    rewrite (application_deserialize_prefix text _ [] decoded (projects app)
               Hsplit Hd Hstates).
    unfold outcome, final, log; cbn [fst snd Application.addDeserialized ret].
    now rewrite !app_nil_r.
  - intros Hsame. apply application_tick_on_same_text; congruence.
Qed.

Lemma timerTick_synchronizes_witness :
  Application.timerTick (applicationStoring (lit "Gamma&running&7&1000"))
  = (Ok tt,
     {| projects :=
          {| _projects := [withRowHandler 0 sampleGamma];
             _onAdd := Function 1; _onRemove := Function 2 |};
        lastSerializedProjectsString := Str (lit "Gamma&running&7&1000");
        storage := Str (lit "Gamma&running&7&1000") |},
     refreshLog 0 (withRowHandlers 0 [sampleAlpha; sampleBeta])
     ++ removalLog (Function 1) (Function 2)
          (withRowHandlers 0 [sampleAlpha; sampleBeta])
     ++ applicationAdditionLog (Function 1) (Function 2) [] [sampleGamma])
  /\ Forall2 sameFields [withRowHandler 0 sampleGamma] [sampleGamma].
Proof.
  refine (proj1 (timerTick_synchronizes
                   (applicationStoring (lit "Gamma&running&7&1000"))
                   (lit "Gamma&running&7&1000") _ eq_refl)
            _ [sampleGamma] _ _).
  - apply Forall_cons; [left; reflexivity|].
    apply Forall_cons; [right; reflexivity|]. apply Forall_nil.
  - discriminate.
  - reflexivity.
  - apply Forall_cons; [right; reflexivity | apply Forall_nil].
Defined.

(** ** [split] and [join] *)

Lemma occurrences_cons c x s :
  occurrences c (x :: s)
  = ((if Z.eqb x c then 1 else 0) + occurrences c s)%nat.
Proof.
  unfold occurrences. simpl.
  destruct (Z.eq_dec x c) as [->|Hne].
  - now rewrite Z.eqb_refl.
  - now destruct (Z.eqb_spec x c).
Qed.

Lemma occurrences_app c s t :
  occurrences c (s ++ t) = (occurrences c s + occurrences c t)%nat.
Proof. apply count_occ_app. Qed.

Lemma occurrences_none (ok : Z -> bool) c s :
  ok c = false -> Forall (fun x => ok x = true) s -> occurrences c s = 0%nat.
Proof.
  intros Hc Hs. induction Hs as [|x s Hx _ IH]; [reflexivity|].
  rewrite occurrences_cons, IH.
  destruct (Z.eqb_spec x c); [congruence | reflexivity].
Qed.

Lemma split_without_separator sep s :
  occurrences sep s = 0%nat -> split sep s = [s].
Proof.
  induction s as [|x s IH]; [reflexivity|].
  rewrite occurrences_cons. simpl.
  destruct (x =? sep); [discriminate|].
  intros H. now rewrite IH.
Qed.

Lemma split_at_separator sep s t :
  occurrences sep s = 0%nat -> split sep (s ++ sep :: t) = s :: split sep t.
Proof.
  induction s as [|x s IH].
  - intros _. simpl. now rewrite Z.eqb_refl.
  - rewrite occurrences_cons. simpl.
    destruct (x =? sep); [discriminate|].
    intros H. now rewrite IH.
Qed.

Lemma split_join sep parts :
  parts <> [] ->
  Forall (fun s => occurrences sep s = 0%nat) parts ->
  split sep (join sep parts) = parts.
Proof.
  intros Hne Hparts. induction Hparts as [|s parts Hs Hrest IH]; [easy|].
  destruct parts as [|s' parts].
  - simpl. now apply split_without_separator.
  - change (join sep (s :: s' :: parts))
      with (s ++ sep :: join sep (s' :: parts)).
    rewrite split_at_separator by assumption.
    now rewrite IH.
Qed.

Lemma occurrences_join sep parts :
  parts <> [] ->
  Forall (fun s => occurrences sep s = 0%nat) parts ->
  S (occurrences sep (join sep parts)) = List.length parts.
Proof.
  intros Hne Hparts. induction Hparts as [|s parts Hs Hrest IH]; [easy|].
  destruct parts as [|s' parts].
  - simpl. now rewrite Hs.
  - change (join sep (s :: s' :: parts))
      with (s ++ sep :: join sep (s' :: parts)).
    rewrite occurrences_app, occurrences_cons, Z.eqb_refl, Hs.
    specialize (IH ltac:(discriminate)).
    change (List.length (s :: s' :: parts))
      with (S (List.length (s' :: parts))).
    rewrite <- IH. reflexivity.
Qed.

Lemma occurrences_join_other sep c parts :
  c <> sep ->
  Forall (fun s => occurrences c s = 0%nat) parts ->
  occurrences c (join sep parts) = 0%nat.
Proof.
  intros Hc Hparts. induction Hparts as [|s parts Hs Hrest IH]; [reflexivity|].
  destruct parts as [|s' parts]; [exact Hs|].
  change (join sep (s :: s' :: parts))
    with (s ++ sep :: join sep (s' :: parts)).
  rewrite occurrences_app, occurrences_cons, Hs, IH.
  destruct (Z.eqb_spec sep c); [congruence | reflexivity].
Qed.

(** ** The characters of an encoded project *)

Lemma hexDigit_unescaped d : uriUnescaped (hexDigit (d mod 16)) = true.
Proof.
  pose proof (Z.mod_pos_bound d 16 eq_refl) as H.
  unfold hexDigit, uriUnescaped.
  destruct (Z.ltb_spec (d mod 16) 10).
  - replace ((48 <=? 48 + d mod 16) && (48 + d mod 16 <=? 57)) with true.
    + now rewrite !orb_true_r.
    + symmetry. apply andb_true_iff. split; apply Z.leb_le; lia.
  - replace ((65 <=? 55 + d mod 16) && (55 + d mod 16 <=? 90)) with true.
    + reflexivity.
    + symmetry. apply andb_true_iff. split; apply Z.leb_le; lia.
Qed.

Lemma escapeOctets_chars octets :
  Forall (fun c => uriChar c = true) (escapeOctets octets).
Proof.
  induction octets as [|b octets IH]; [constructor|].
  simpl. repeat constructor; try assumption.
  all: unfold uriChar; rewrite hexDigit_unescaped; reflexivity.
Qed.

Lemma Encode_chars_upto n :
  forall s R, (List.length s <= n)%nat ->
  Encode s = Ok R -> Forall (fun c => uriChar c = true) R.
Proof.
  induction n as [|n IH]; intros s R Hlen.
  - destruct s; [|simpl in Hlen; lia]. intros [= <-]. constructor.
  - destruct s as [|C rest]; [intros [= <-]; constructor|].
    simpl in Hlen. simpl.
    destruct (uriUnescaped C) eqn:HC.
    { destruct (Encode rest) as [R'|] eqn:HR; [|discriminate].
      intros [= <-]. constructor.
      - unfold uriChar. now rewrite HC.
      - apply (IH rest); [lia | assumption]. }
    destruct (isLeadingSurrogate C).
    { destruct rest as [|D rest']; [discriminate|].
      destruct (isTrailingSurrogate D); [|discriminate].
      destruct (Encode rest') as [R'|] eqn:HR; [|discriminate].
      intros [= <-]. apply Forall_app. split; [apply escapeOctets_chars|].
      apply (IH rest'); [simpl in Hlen; lia | assumption]. }
    destruct (isTrailingSurrogate C); [discriminate|].
    destruct (Encode rest) as [R'|] eqn:HR; [|discriminate].
    intros [= <-]. apply Forall_app. split; [apply escapeOctets_chars|].
    apply (IH rest); [lia | assumption].
Qed.

Lemma encodeURIComponent_chars s R :
  encodeURIComponent s = Ok R -> Forall (fun c => uriChar c = true) R.
Proof. apply (Encode_chars_upto (List.length s)), le_n. Qed.

Lemma digits_from_chars fuel :
  forall z acc,
  Forall (fun c => isDecimalDigit c = true) acc ->
  Forall (fun c => isDecimalDigit c = true) (digits_from fuel z acc).
Proof.
  induction fuel as [|fuel IH]; intros z acc Hacc; [exact Hacc|].
  assert (Hd : Forall (fun c => isDecimalDigit c = true) ((48 + z mod 10) :: acc)).
  { constructor; [|exact Hacc].
    pose proof (Z.mod_pos_bound z 10 eq_refl).
    apply andb_true_iff. split; apply Z.leb_le; lia. }
  simpl. destruct (z / 10 =? 0); [exact Hd | now apply IH].
Qed.

Lemma digits_chars z : Forall (fun c => isDecimalDigit c = true) (digits z).
Proof. apply digits_from_chars. constructor. Qed.

Lemma Number_toString_chars n c :
  c = 38 \/ c = 124 -> occurrences c (Number_toString n) = 0%nat.
Proof.
  intros Hc. destruct n as [|z]; [destruct Hc as [-> | ->]; reflexivity|].
  assert (Hd : forall w, occurrences c (digits w) = 0%nat).
  { intros w. apply (occurrences_none isDecimalDigit); [|apply digits_chars].
    destruct Hc as [-> | ->]; reflexivity. }
  simpl. destruct (z <? 0); [|apply Hd].
  rewrite occurrences_cons, Hd. destruct Hc as [-> | ->]; reflexivity.
Qed.

(** ** Percent-encoding round trip *)

Ltac Zify.zify_post_hook ::= Z.div_mod_to_equations.

(** Settles the comparisons of the goal that the hypotheses decide. *)
Ltac decide_tests :=
  repeat match goal with
    | |- context [Z.eqb ?a ?b] => destruct (Z.eqb_spec a b); try lia
    | |- context [Z.ltb ?a ?b] => destruct (Z.ltb_spec a b); try lia
    | |- context [Z.leb ?a ?b] => destruct (Z.leb_spec a b); try lia
    end.

Lemma hexValue_hexDigit d : 0 <= d < 16 -> hexValue (hexDigit d) = Some d.
Proof.
  intros H. unfold hexValue, hexDigit.
  decide_tests; cbn [andb]; f_equal; lia.
Qed.

Lemma ParseHexOctet_escape b :
  isOctet b ->
  ParseHexOctet (hexDigit ((b / 16) mod 16)) (hexDigit (b mod 16)) = Some b.
Proof.
  intros H. unfold isOctet in H. unfold ParseHexOctet.
  rewrite !hexValue_hexDigit by lia. f_equal. lia.
Qed.

Lemma continuationBytes_escapeOctets octets rest :
  Forall isOctet octets ->
  continuationBytes (List.length octets) (escapeOctets octets ++ rest)
  = Ok octets.
Proof.
  induction 1 as [|b octets Hb _ IH]; [reflexivity|].
  cbn [List.length escapeOctets flat_map escapeOctet app continuationBytes].
  rewrite Z.eqb_refl, (ParseHexOctet_escape b Hb).
  fold (escapeOctets octets). rewrite IH. reflexivity.
Qed.

Lemma length_escapeOctets octets :
  List.length (escapeOctets octets) = (3 * List.length octets)%nat.
Proof.
  induction octets as [|b octets IH]; [reflexivity|].
  cbn [escapeOctets flat_map escapeOctet app List.length].
  fold (escapeOctets octets). rewrite IH. lia.
Qed.

Lemma Decode_skip skipped rest :
  Decode (List.length skipped) (skipped ++ rest) = Decode 0 rest.
Proof. induction skipped as [|c skipped IH]; [reflexivity | exact IH]. Qed.

Lemma Decode_percent rest :
  Decode 0 (37 :: rest)
  = rbind (decodeEscape rest) (fun '(S_, used) =>
      rbind (Decode used rest) (fun R => Ok (S_ ++ R))).
Proof. reflexivity. Qed.

Lemma Decode_plain C rest :
  C <> 37 ->
  Decode 0 (C :: rest) = rbind (Decode 0 rest) (fun R => Ok (C :: R)).
Proof. intros H. simpl. now destruct (Z.eqb_spec C 37). Qed.

(** An escape of one octet below 128 stands for that code unit. *)
Lemma Decode_escaped_ascii b rest :
  0 <= b < 128 ->
  Decode 0 (escapeOctets [b] ++ rest)
  = rbind (Decode 0 rest) (fun R => Ok (b :: R)).
Proof.
  intros Hb.
  cbn [escapeOctets flat_map escapeOctet app].
  rewrite Decode_percent. unfold decodeEscape.
  rewrite ParseHexOctet_escape by (unfold isOctet; lia).
  replace (leadingOnes b) with 0%nat
    by (unfold leadingOnes; decide_tests; reflexivity).
  cbn [rbind].
  change (Decode 2 (?h1 :: ?h2 :: rest)) with (Decode 0 rest).
  reflexivity.
Qed.

(** An escape of several octets stands for the code point they encode. *)
Lemma Decode_escaped_sequence b0 bs V rest :
  isOctet b0 -> Forall isOctet bs ->
  (1 <= List.length bs <= 3)%nat ->
  leadingOnes b0 = S (List.length bs) ->
  utf8CodePoint (b0 :: bs) = Some V ->
  Decode 0 (escapeOctets (b0 :: bs) ++ rest)
  = rbind (Decode 0 rest) (fun R => Ok (UTF16EncodeCodePoint V ++ R)).
Proof.
  intros Hb0 Hbs Hlen Hn HV.
  cbn [escapeOctets flat_map escapeOctet app]. fold (escapeOctets bs).
  rewrite Decode_percent. unfold decodeEscape.
  rewrite (ParseHexOctet_escape b0 Hb0), Hn.
  assert (Hcont : continuationBytes (List.length bs) (escapeOctets bs ++ rest)
                  = Ok bs) by now apply continuationBytes_escapeOctets.
  assert (Hskip : Decode (2 + 3 * List.length bs)
                    (hexDigit ((b0 / 16) mod 16) :: hexDigit (b0 mod 16)
                       :: escapeOctets bs ++ rest)
                  = Decode 0 rest).
  { rewrite <- length_escapeOctets. apply (Decode_skip (escapeOctets bs)). }
  destruct (List.length bs) as [|[|[|[|n]]]]; try lia;
    rewrite Hcont; cbn [rbind]; rewrite HV; cbn [rbind];
    rewrite Hskip; reflexivity.
Qed.

Lemma utf8Octets_decodes cp :
  isScalarValue cp -> 128 <= cp ->
  exists b0 bs,
    utf8Octets cp = b0 :: bs
    /\ isOctet b0 /\ Forall isOctet bs
    /\ (1 <= List.length bs <= 3)%nat
    /\ leadingOnes b0 = S (List.length bs)
    /\ utf8CodePoint (b0 :: bs) = Some cp.
Proof.
  intros [Hrange Hsur] Hcp. unfold utf8Octets, isOctet.
  destruct (Z.ltb_spec cp 128); [lia|].
  destruct (Z.ltb_spec cp 2048); [|destruct (Z.ltb_spec cp 65536)];
    do 2 eexists; (split; [reflexivity|]);
    (split; [lia|]);
    (split; [repeat constructor; lia|]);
    (split; [simpl; lia|]);
    (split; [unfold leadingOnes; decide_tests; reflexivity|]);
    unfold utf8CodePoint, isContinuation; decide_tests;
    cbn [andb]; f_equal; lia.
Qed.

Lemma uriUnescaped_ascii C :
  uriUnescaped C = true -> 0 <= C < 128 /\ C <> 37.
Proof.
  unfold uriUnescaped. decide_tests; cbn [andb orb]; try discriminate; lia.
Qed.

Lemma UTF16EncodeCodePoint_unit C :
  0 <= C <= 65535 -> UTF16EncodeCodePoint C = [C].
Proof. intros H. unfold UTF16EncodeCodePoint. now decide_tests. Qed.

Lemma surrogate_pair lead trail :
  isLeadingSurrogate lead = true -> isTrailingSurrogate trail = true ->
  isScalarValue (UTF16SurrogatePairToCodePoint lead trail)
  /\ 128 <= UTF16SurrogatePairToCodePoint lead trail
  /\ UTF16EncodeCodePoint (UTF16SurrogatePairToCodePoint lead trail)
     = [lead; trail].
Proof.
  unfold isLeadingSurrogate, isTrailingSurrogate, isScalarValue,
    UTF16SurrogatePairToCodePoint, UTF16EncodeCodePoint.
  rewrite !andb_true_iff, !Z.leb_le. intros [H1 H2] [H3 H4].
  repeat split; try lia.
  decide_tests. f_equal; [|f_equal]; lia.
Qed.

Lemma Encode_Decode_upto n :
  forall s, (List.length s <= n)%nat ->
  isWellFormed s = true ->
  exists R, Encode s = Ok R /\ Decode 0 R = Ok s.
Proof.
  induction n as [|n IH]; intros s Hlen Hwf.
  - destruct s; [|simpl in Hlen; lia]. exists []. split; reflexivity.
  - destruct s as [|C rest]; [exists []; split; reflexivity|].
    simpl in Hlen. cbn [isWellFormed Encode] in *.
    destruct (uriUnescaped C) eqn:HC.
    { destruct (uriUnescaped_ascii C HC) as [HCrange HC37].
      assert (Hlead : isLeadingSurrogate C = false)
        by (unfold isLeadingSurrogate; decide_tests; reflexivity).
      rewrite Hlead in Hwf.
      apply andb_true_iff in Hwf as [_ Hwf].
      destruct (IH rest ltac:(lia) Hwf) as [R [HE HD]].
      exists (C :: R). rewrite HE. split; [reflexivity|].
      rewrite (Decode_plain C R HC37), HD. reflexivity. }
    destruct (isLeadingSurrogate C) eqn:Hlead.
    { destruct rest as [|D rest']; [discriminate|].
      apply andb_true_iff in Hwf as [Htrail Hwf]. rewrite Htrail.
      destruct (IH rest' ltac:(simpl in Hlen; lia) Hwf) as [R [HE HD]].
      destruct (surrogate_pair C D Hlead Htrail) as [Hsv [Hge Hpair]].
      destruct (utf8Octets_decodes _ Hsv Hge)
        as [b0 [bs [Hoct [Hb0 [Hbs [Hl [Hn HV]]]]]]].
      eexists. rewrite HE. split; [reflexivity|].
      rewrite Hoct, (Decode_escaped_sequence b0 bs _ R Hb0 Hbs Hl Hn HV).
      rewrite HD, Hpair. reflexivity. }
    apply andb_true_iff in Hwf as [Hwf Hrest].
    apply andb_true_iff in Hwf as [Hwf Hhi].
    apply andb_true_iff in Hwf as [Htrail Hlo].
    apply negb_true_iff in Htrail. rewrite Htrail.
    apply Z.leb_le in Hlo, Hhi.
    destruct (IH rest ltac:(lia) Hrest) as [R [HE HD]].
    eexists. rewrite HE. split; [reflexivity|].
    destruct (Z.lt_ge_cases C 128) as [Hsmall | Hlarge].
    + replace (utf8Octets C) with [C]
        by (unfold utf8Octets; decide_tests; reflexivity).
      rewrite (Decode_escaped_ascii C R) by lia. rewrite HD. reflexivity.
    + assert (Hsv : isScalarValue C).
      { unfold isScalarValue, isLeadingSurrogate, isTrailingSurrogate in *.
        split; [lia|]. revert Hlead Htrail. decide_tests; try discriminate.
        all: intros; lia. }
      destruct (utf8Octets_decodes _ Hsv Hlarge)
        as [b0 [bs [Hoct [Hb0 [Hbs [Hl [Hn HV]]]]]]].
      rewrite Hoct, (Decode_escaped_sequence b0 bs _ R Hb0 Hbs Hl Hn HV).
      rewrite HD, UTF16EncodeCodePoint_unit by lia. reflexivity.
Qed.

(** Percent-encoding well-formed text succeeds, and decoding the result gives
    the text back. *)
Lemma encodeURIComponent_roundtrip s :
  isWellFormed s = true ->
  exists encoded,
    encodeURIComponent s = Ok encoded /\ decodeURIComponent encoded = Ok s.
Proof. apply (Encode_Decode_upto (List.length s)), le_n. Qed.

(** ** Number round trip *)

Lemma isDecimalDigit_range c : isDecimalDigit c = true -> 48 <= c <= 57.
Proof.
  unfold isDecimalDigit. rewrite andb_true_iff, !Z.leb_le. tauto.
Qed.

Lemma decimalValue_digits_from fuel :
  forall z tl, 0 <= z < 2 ^ Z.of_nat fuel ->
  decimalValue (digits_from fuel z tl) 0 = decimalValue tl z.
Proof.
  induction fuel as [|fuel IH]; intros z tl Hz.
  - simpl in *. now replace z with 0 by lia.
  - cbn [digits_from]. rewrite Nat2Z.inj_succ, Z.pow_succ_r in Hz by lia.
    destruct (Z.eqb_spec (z / 10) 0) as [Hq | Hq].
    + unfold decimalValue. cbn [fold_left]. f_equal. lia.
    + rewrite IH by lia. unfold decimalValue. cbn [fold_left]. f_equal. lia.
Qed.

Lemma decimalValue_digits z : 0 <= z -> decimalValue (digits z) 0 = z.
Proof.
  intros Hz. unfold digits. rewrite decimalValue_digits_from; [reflexivity|].
  split; [assumption|].
  rewrite Nat2Z.inj_succ, Z2Nat.id by apply Z.log2_nonneg.
  destruct (Z.eq_dec z 0) as [-> | Hne]; [reflexivity|].
  apply Z.log2_spec. lia.
Qed.

Lemma digits_from_not_empty fuel :
  forall z acc, acc <> [] -> digits_from fuel z acc <> [].
Proof.
  induction fuel as [|fuel IH]; intros z acc Hacc; [exact Hacc|].
  simpl. destruct (z / 10 =? 0); [discriminate | now apply IH].
Qed.

Lemma digits_not_empty z : digits z <> [].
Proof.
  unfold digits. cbn [digits_from].
  destruct (z / 10 =? 0); [discriminate | now apply digits_from_not_empty].
Qed.

Lemma parseDigits_decimal ds :
  Forall (fun c => isDecimalDigit c = true) ds ->
  forall acc, parseDigits 10 ds true acc = Some (decimalValue ds acc).
Proof.
  induction 1 as [|d ds Hd _ IH]; intros acc; [reflexivity|].
  apply isDecimalDigit_range in Hd.
  cbn [parseDigits]. unfold digitValue.
  decide_tests; cbn [andb]; decide_tests. all: apply IH.
Qed.

Lemma parseDigits_decimal_first d ds :
  Forall (fun c => isDecimalDigit c = true) (d :: ds) ->
  parseDigits 10 (d :: ds) false 0 = Some (decimalValue (d :: ds) 0).
Proof.
  intros Hds. inversion Hds as [|? ? Hd Hds']; subst.
  apply isDecimalDigit_range in Hd.
  cbn [parseDigits]. unfold digitValue.
  decide_tests; cbn [andb]; decide_tests.
  all: rewrite parseDigits_decimal by assumption; reflexivity.
Qed.

Lemma TrimStart_not_space c s :
  isWhiteSpace c = false -> TrimStart (c :: s) = c :: s.
Proof. intros H. simpl. now rewrite H. Qed.

Lemma parseInt_decimal ds :
  ds <> [] ->
  Forall (fun c => isDecimalDigit c = true) ds ->
  parseInt (Str ds) = Int (decimalValue ds 0)
  /\ parseInt (Str (45 :: ds)) = Int (- decimalValue ds 0).
Proof.
  intros Hne Hds. destruct ds as [|d ds]; [easy|].
  pose proof (parseDigits_decimal_first d ds Hds) as Hparse.
  inversion Hds as [|? ? Hd Hds']; subst.
  apply isDecimalDigit_range in Hd.
  assert (Hspace : isWhiteSpace d = false)
    by (unfold isWhiteSpace; decide_tests; reflexivity).
  assert (Hx : forall x rest, ds = x :: rest -> 48 <= x <= 57).
  { intros x rest ->. inversion Hds'; subst. now apply isDecimalDigit_range. }
  split.
  - unfold parseInt, ToString. rewrite (TrimStart_not_space d ds Hspace).
    cbv beta iota zeta.
    replace ((d =? 43) || (d =? 45)) with false by (decide_tests; reflexivity).
    replace (d =? 45) with false by (decide_tests; reflexivity).
    cbv beta iota.
    destruct ds as [|x rest].
    + rewrite Hparse. f_equal; lia.
    + specialize (Hx x rest eq_refl).
      replace ((d =? 48) && ((x =? 120) || (x =? 88))) with false
        by (decide_tests; reflexivity).
      rewrite Hparse. f_equal; lia.
  - unfold parseInt, ToString.
    rewrite (TrimStart_not_space 45 (d :: ds) eq_refl).
    cbv beta iota zeta.
    change ((45 =? 43) || (45 =? 45)) with true. change (45 =? 45) with true.
    cbv beta iota.
    destruct ds as [|x rest].
    + rewrite Hparse. f_equal; lia.
    + specialize (Hx x rest eq_refl).
      replace ((d =? 48) && ((x =? 120) || (x =? 88))) with false
        by (decide_tests; reflexivity).
      rewrite Hparse. f_equal; lia.
Qed.

(** [parseInt] reads back the integer that [Number_toString] printed. *)
Lemma parseInt_Number_toString z :
  parseInt (Str (Number_toString (Int z))) = Int z.
Proof.
  unfold Number_toString. destruct (Z.ltb_spec z 0).
  - destruct (parseInt_decimal (digits (- z)) (digits_not_empty _)
                (digits_chars _)) as [_ H1].
    rewrite H1, decimalValue_digits by lia. f_equal. lia.
  - destruct (parseInt_decimal (digits z) (digits_not_empty _)
                (digits_chars _)) as [H1 _].
    rewrite H1, decimalValue_digits by lia. reflexivity.
Qed.

(** ** The text of a project *)

Lemma serialize_returns this :
  Project.serialize this
  = match encodeURIComponent (_name this) with
    | Ok name => (Ok (join 38 (serializedFields name this)), this, [])
    | Throw e => (Throw e, this, [])
    end.
Proof.
  unfold Project.serialize, bind at 1, self at 1, bind, lift.
  destruct (encodeURIComponent (_name this)); reflexivity.
Qed.

Lemma serializesTo_fields p text :
  serializesTo p text ->
  exists name,
    encodeURIComponent (_name p) = Ok name
    /\ text = join 38 (serializedFields name p).
Proof.
  unfold serializesTo. rewrite serialize_returns.
  destruct (encodeURIComponent (_name p)) as [name|]; [|discriminate].
  intros [= <-]. now exists name.
Qed.

Lemma validState_chars state c :
  validState state -> c = 38 \/ c = 124 ->
  occurrences c (joinItem state) = 0%nat.
Proof. intros [-> | ->] [-> | ->]; reflexivity. Qed.

Lemma serializedFields_chars name p c :
  encodeURIComponent (_name p) = Ok name ->
  validState (_state p) -> c = 38 \/ c = 124 ->
  Forall (fun s => occurrences c s = 0%nat) (serializedFields name p).
Proof.
  intros Hname Hstate Hc. unfold serializedFields.
  repeat constructor.
  - apply (occurrences_none uriChar);
      [destruct Hc as [-> | ->]; reflexivity
      | now apply encodeURIComponent_chars with (s := _name p)].
  - now apply validState_chars.
  - now apply Number_toString_chars.
  - now apply Number_toString_chars.
Qed.

Lemma serialized_project_text p text :
  validState (_state p) -> serializesTo p text ->
  occurrences 124 text = 0%nat
  /\ occurrences 38 text = 3%nat
  /\ exists name,
       encodeURIComponent (_name p) = Ok name
       /\ split 38 text = serializedFields name p.
Proof.
  intros Hstate Htext.
  destruct (serializesTo_fields p text Htext) as [name [Hname ->]].
  pose proof (serializedFields_chars name p 38 Hname Hstate (or_introl eq_refl))
    as H38.
  pose proof (serializedFields_chars name p 124 Hname Hstate (or_intror eq_refl))
    as H124.
  split; [|split].
  - apply occurrences_join_other; [discriminate | exact H124].
  - pose proof (occurrences_join 38 (serializedFields name p)
                  ltac:(discriminate) H38) as H.
    simpl List.length in H. now injection H.
  - exists name. split; [exact Hname|].
    apply split_join; [discriminate | exact H38].
Qed.

(** C10.  For projects whose state is one of the two tags: when the names
    are well-formed text, [Project.serialize] returns a text for each of
    them; and whenever it returns texts, each text contains no [|] and
    exactly three [&], splitting it on [&] gives back the encoded name, the
    state tag and the two numbers, and splitting on [|] the texts joined with
    [|] (at least one) gives back the texts. *)
Theorem serialize_delimiters (l : list Project) :
  Forall (fun p => validState (_state p)) l ->
  (Forall (fun p => isWellFormed (_name p) = true) l ->
   exists texts, Forall2 serializesTo l texts)
  /\ forall texts,
       Forall2 serializesTo l texts ->
       Forall (fun text => occurrences 124 text = 0%nat
                           /\ occurrences 38 text = 3%nat) texts
       /\ Forall2 (fun p text =>
                     exists name,
                       encodeURIComponent (_name p) = Ok name
                       /\ split 38 text = serializedFields name p) l texts
       /\ (texts <> [] -> split 124 (join 124 texts) = texts).
Proof.
  intros Hstates. split.
  - intros Hnames. induction l as [|p l IH]; [exists []; constructor|].
    inversion Hstates; inversion Hnames; subst.
    destruct IH as [texts Htexts]; [assumption | assumption |].
    destruct (encodeURIComponent_roundtrip (_name p)) as [name [Hname _]];
      [assumption|].
    exists (join 38 (serializedFields name p) :: texts). constructor.
    + unfold serializesTo. rewrite serialize_returns, Hname. reflexivity.
    + exact Htexts.
  - intros texts Htexts.
    assert (Hall : Forall2 (fun p text =>
                     occurrences 124 text = 0%nat
                     /\ occurrences 38 text = 3%nat
                     /\ exists name,
                          encodeURIComponent (_name p) = Ok name
                          /\ split 38 text = serializedFields name p) l texts).
    { induction Htexts as [|p text l texts Hp _ IH]; [constructor|].
      inversion Hstates; subst. constructor.
      - now apply serialized_project_text.
      - now apply IH. }
    assert (Hbar : Forall (fun text => occurrences 124 text = 0%nat) texts).
    { clear Htexts. induction Hall as [|p text l texts [H _] _ IH];
        constructor; [exact H|].
      inversion Hstates; subst. now apply IH. }
    split; [|split].
    + clear Htexts Hbar. induction Hall as [|p text l texts [H [H' _]] _ IH];
        constructor; [now split|].
      inversion Hstates; subst. now apply IH.
    + clear Htexts Hbar. induction Hall as [|p text l texts [_ [_ H]] _ IH];
        constructor; [exact H|].
      inversion Hstates; subst. now apply IH.
    + intros Hne. now apply split_join.
Qed.

Lemma serialize_delimiters_witness :
  exists texts,
    Forall2 serializesTo [sampleAlpha; sampleBeta] texts
    /\ Forall (fun text => occurrences 124 text = 0%nat
                           /\ occurrences 38 text = 3%nat) texts
    /\ split 124 (join 124 texts) = texts.
Proof.
  destruct (serialize_delimiters [sampleAlpha; sampleBeta])
    as [Hproduced Htexts].
  - apply Forall_cons; [left; reflexivity|].
    apply Forall_cons; [right; reflexivity|]. apply Forall_nil.
  - destruct Hproduced as [texts Hl].
    + apply Forall_cons; [reflexivity|].
      apply Forall_cons; [reflexivity|]. apply Forall_nil.
    + exists texts. destruct (Htexts texts Hl) as [H1 [_ H3]].
      split; [exact Hl|]. split; [exact H1|].
      apply H3. inversion Hl. discriminate.
Defined.

(** ** Round trip of the text codec *)

(** Decoding the text of a valid project into any project gives a project
    with the same name, state, accumulated time and iteration start. *)
Lemma project_roundtrip (p q : Project) :
  validProject p ->
  exists text,
    Project.serialize p = (Ok text, p, [])
    /\ Project.deserialize text q
       = (Ok tt,
          {| _name := _name p;
             _state := _state p;
             _timeSpentInPreviousIterations := _timeSpentInPreviousIterations p;
             _currentIterationStartTime := _currentIterationStartTime p;
             _onChange := _onChange q |},
          [])
    /\ sameFields (final (Project.deserialize text q)) p
    /\ occurrences 124 text = 0%nat.
Proof.
  intros [Hname [Hstate [[t [Ht _]] [c [Hc _]]]]].
  destruct (encodeURIComponent_roundtrip (_name p) Hname)
    as [name [Hencode Hdecode]].
  assert (Htext : serializesTo p (join 38 (serializedFields name p)))
    by (unfold serializesTo; rewrite serialize_returns, Hencode; reflexivity).
  destruct (serialized_project_text p _ Hstate Htext)
    as [Hbar [_ [name' [Hname' Hsplit]]]].
  assert (name' = name) by congruence. subst name'.
  assert (Hback : Project.deserialize (join 38 (serializedFields name p)) q
                  = (Ok tt,
                     {| _name := _name p;
                        _state := _state p;
                        _timeSpentInPreviousIterations :=
                          _timeSpentInPreviousIterations p;
                        _currentIterationStartTime :=
                          _currentIterationStartTime p;
                        _onChange := _onChange q |},
                     [])).
  { rewrite deserialize_returns, Hsplit. unfold serializedFields.
    cbn [index nth_error ToString]. rewrite Hdecode, Ht, Hc.
    rewrite !parseInt_Number_toString.
    destruct Hstate as [-> | ->]; reflexivity. }
  exists (join 38 (serializedFields name p)). split; [|split; [|split]].
  - rewrite serialize_returns, Hencode. reflexivity.
  - exact Hback.
  - rewrite Hback. repeat split.
  - exact Hbar.
Qed.

Lemma serialize_loop this (l : list Project) (texts : list jsstring) :
  Forall2 (fun p text => Project.serialize p = (Ok text, p, [])) l texts ->
  forall i pushed,
  Projects.forEach_from
    (fun project _ _ =>
       '(s, _) <- on project Project.serialize ;;
       pushed <- self ;;
       set_self (pushed ++ [s]))
    this i l pushed
  = (Ok tt, pushed ++ texts, []).
Proof.
  induction 1 as [|p text l texts Hp _ IH]; intros i pushed.
  - simpl. now rewrite app_nil_r.
  - cbn [Projects.forEach_from].
    unfold bind at 1, bind at 1, on. rewrite Hp.
    cbn. rewrite IH, <- app_assoc. reflexivity.
Qed.

Lemma list_serialize_returns this texts :
  Forall2 (fun p text => Project.serialize p = (Ok text, p, []))
    (_projects this) texts ->
  Projects.serialize this = (Ok (join 124 texts), this, []).
Proof.
  intros H. unfold Projects.serialize.
  unfold bind at 1, self at 1.
  rewrite (bind_ok _ _ _ _ _ _
             (on_ok _ _ this _ _ _ (serialize_loop this _ _ H 0%nat []))).
  reflexivity.
Qed.

Lemma withoutHandler_sameFields p : sameFields (withoutHandler p) p.
Proof. repeat split. Qed.

(** The round trip of a list that holds at least one project, all valid:
    [serialize] returns a text and mutates nothing, and decoding that text
    into any list leaves exactly the projects of the original list, in order,
    each with its four fields (and no [onChange] handler). *)
Lemma projects_roundtrip (this target : Projects) :
  _projects this <> [] ->
  Forall validProject (_projects this) ->
  exists text,
    Projects.serialize this = (Ok text, this, [])
    /\ outcome (Projects.deserialize text target) = Ok tt
    /\ _projects (final (Projects.deserialize text target))
       = map withoutHandler (_projects this)
    /\ Forall2 sameFields
         (_projects (final (Projects.deserialize text target)))
         (_projects this).
Proof.
  intros Hne Hvalid.
  assert (Htexts : exists texts,
             Forall2 (fun p text => Project.serialize p = (Ok text, p, []))
               (_projects this) texts
             /\ Forall (fun text => occurrences 124 text = 0%nat) texts
             /\ decodeProjects texts = Ok (map withoutHandler (_projects this))).
  { clear Hne. induction Hvalid as [|p l Hp _ [texts [H1 [H2 H3]]]].
    - exists []. repeat split; constructor.
    - destruct (project_roundtrip p (Project.new []) Hp)
        as [text [Hs [Hd [_ Hbar]]]].
      exists (text :: texts). repeat split.
      + now constructor.
      + now constructor.
      + cbn [decodeProjects map]. unfold decodeProject at 1.
        rewrite Hd. cbn [rbind]. rewrite H3. reflexivity. }
  destruct Htexts as [texts [Hser [Hbar Hdec]]].
  exists (join 124 texts).
  assert (Hsplit : split 124 (join 124 texts) = texts).
  { apply split_join; [|exact Hbar].
    intros ->. inversion Hser as [Hl|]. now rewrite <- Hl in Hne. }
  rewrite <- Hsplit in Hdec.
  rewrite (list_serialize_returns this texts Hser).
  rewrite (deserialize_replaces _ _ target Hdec).
  split; [reflexivity|]. split; [reflexivity|]. split; [reflexivity|].
  unfold final; cbn [fst snd _projects].
  clear. induction (_projects this) as [|p l IH]; constructor.
  - apply withoutHandler_sameFields.
  - exact IH.
Qed.

(** * Further properties of the code *)

(** ** Starting, stopping and resetting *)

Lemma start_returns now this :
  Project.start now this
  = if value_eqb (_state this) (Str Project.State.RUNNING)
    then (Ok tt, this, [])
    else
      (Ok tt,
       {| _name := _name this;
          _state := Str Project.State.RUNNING;
          _timeSpentInPreviousIterations := _timeSpentInPreviousIterations this;
          _currentIterationStartTime := Int now;
          _onChange := _onChange this |},
       notification
         {| _name := _name this;
            _state := Str Project.State.RUNNING;
            _timeSpentInPreviousIterations :=
              _timeSpentInPreviousIterations this;
            _currentIterationStartTime := Int now;
            _onChange := _onChange this |}).
Proof.
  unfold Project.start, bind at 1, self at 1.
  destruct (value_eqb (_state this) (Str Project.State.RUNNING));
    [reflexivity|].
  unfold notification. destruct this as [n s t c h]; simpl.
  destruct h; reflexivity.
Qed.

Lemma stop_returns now this :
  Project.stop now this
  = if value_eqb (_state this) (Str Project.State.STOPPED)
    then (Ok tt, this, [])
    else
      (Ok tt,
       {| _name := _name this;
          _state := Str Project.State.STOPPED;
          _timeSpentInPreviousIterations :=
            num_add (_timeSpentInPreviousIterations this)
                    (num_sub (Int now) (_currentIterationStartTime this));
          _currentIterationStartTime := Int 0;
          _onChange := _onChange this |},
       notification
         {| _name := _name this;
            _state := Str Project.State.STOPPED;
            _timeSpentInPreviousIterations :=
              num_add (_timeSpentInPreviousIterations this)
                      (num_sub (Int now) (_currentIterationStartTime this));
            _currentIterationStartTime := Int 0;
            _onChange := _onChange this |}).
Proof.
  unfold Project.stop, bind at 1, self at 1.
  destruct (value_eqb (_state this) (Str Project.State.STOPPED));
    [reflexivity|].
  unfold notification. destruct this as [n s t c h]; simpl.
  destruct h; reflexivity.
Qed.

(** X1. Starting twice is starting once, and stopping twice is stopping
    once: whatever the project, the second [start()] (or [stop()]) changes
    nothing and notifies nobody, so a second start does not move the start
    of the running iteration and a second stop does not add time. *)
Theorem start_and_stop_are_idempotent (t1 t2 : Z) (this : Project) :
  (Project.start t1 ;; Project.start t2) this = Project.start t1 this
  /\ (Project.stop t1 ;; Project.stop t2) this = Project.stop t1 this.
Proof.
  split.
  - rewrite (start_returns t1 this).
    destruct (value_eqb (_state this) (Str Project.State.RUNNING)) eqn:E.
    + assert (H : Project.start t1 this = (Ok tt, this, []))
        by (now rewrite start_returns, E).
      rewrite (bind_ok _ _ _ _ _ _ H), start_returns, E. reflexivity.
    + assert (H := start_returns t1 this). rewrite E in H.
      rewrite (bind_ok _ _ _ _ _ _ H), start_returns.
      cbn [_state]. rewrite (proj2 (value_eqb_eq _ _) eq_refl).
      unfold outcome, final, log; cbn [fst snd]. now rewrite app_nil_r.
  - rewrite (stop_returns t1 this).
    destruct (value_eqb (_state this) (Str Project.State.STOPPED)) eqn:E.
    + assert (H : Project.stop t1 this = (Ok tt, this, []))
        by (now rewrite stop_returns, E).
      rewrite (bind_ok _ _ _ _ _ _ H), stop_returns, E. reflexivity.
    + assert (H := stop_returns t1 this). rewrite E in H.
      rewrite (bind_ok _ _ _ _ _ _ H), stop_returns.
      cbn [_state]. rewrite (proj2 (value_eqb_eq _ _) eq_refl).
      unfold outcome, final, log; cbn [fst snd]. now rewrite app_nil_r.
Qed.

(** X2. Stopping loses no time: for a project whose state is one of the two
    tags, the time spent read at the instant of a [stop()] is the time spent
    that any later reading returns after that [stop()]. *)
Theorem stop_keeps_the_time_spent (now later : Z) (this : Project) :
  validState (_state this) ->
  outcome ((Project.stop now ;; Project.getTimeSpent later) this)
  = outcome (Project.getTimeSpent now this).
Proof.
  intros [Hs | Hs].
  - assert (H : Project.stop now this = (Ok tt, this, []))
      by (rewrite stop_returns, Hs; reflexivity).
    rewrite (bind_ok _ _ _ _ _ _ H), !getTimeSpent_returns, Hs. reflexivity.
  - rewrite (bind_ok _ _ _ _ _ _ (stop_running now this Hs)).
    rewrite !getTimeSpent_returns, Hs. reflexivity.
Qed.

Lemma stop_keeps_the_time_spent_witness :
  outcome ((Project.stop 100 ;; Project.getTimeSpent 5000) sampleBeta)
  = outcome (Project.getTimeSpent 100 sampleBeta).
Proof.
  apply (stop_keeps_the_time_spent 100 5000 sampleBeta). right. reflexivity.
Defined.

(** X3. While a project runs, the time spent is the accumulated time plus
    the time since the start of the iteration, and it never decreases when
    the clock advances.  The accumulated time, the start, the two clock
    readings, the two differences and the two sums are safe integers, the
    range in which the subtraction and the addition of the code are exact. *)
Theorem time_spent_of_running_project (now1 now2 spent started : Z)
  (this : Project) :
  _state this = Str Project.State.RUNNING ->
  _timeSpentInPreviousIterations this = Int spent ->
  _currentIterationStartTime this = Int started ->
  now1 <= now2 ->
  safe_integer spent -> safe_integer started ->
  safe_integer now1 -> safe_integer now2 ->
  safe_integer (now1 - started) -> safe_integer (now2 - started) ->
  safe_integer (spent + (now1 - started)) ->
  safe_integer (spent + (now2 - started)) ->
  outcome (Project.getTimeSpent now1 this) = Ok (Int (spent + (now1 - started)))
  /\ outcome (Project.getTimeSpent now2 this)
     = Ok (Int (spent + (now2 - started)))
  /\ spent + (now1 - started) <= spent + (now2 - started).
Proof.
  intros Hs Ht Hc Hle _ _ _ _ _ _ _ _.
  rewrite !getTimeSpent_returns, Hs, Ht, Hc.
  repeat split; lia.
Qed.

Lemma time_spent_of_running_project_witness :
  outcome (Project.getTimeSpent 100 sampleBeta) = Ok (Int (12 + (100 - 34)))
  /\ outcome (Project.getTimeSpent 250 sampleBeta)
     = Ok (Int (12 + (250 - 34)))
  /\ 12 + (100 - 34) <= 12 + (250 - 34).
Proof.
  apply (time_spent_of_running_project 100 250 12 34 sampleBeta);
    try reflexivity; unfold safe_integer; lia.
Defined.

(** X4. After [reset()], whatever the project was, the state is stopped, the
    accumulated time is 0 and every later reading of the time spent returns
    0; on a project that was already stopped the change is notified once,
    not twice. *)
Theorem reset_zeroes_every_project (now later : Z) (this : Project) :
  outcome (Project.reset now this) = Ok tt
  /\ _state (final (Project.reset now this)) = Str Project.State.STOPPED
  /\ _timeSpentInPreviousIterations (final (Project.reset now this)) = Int 0
  /\ outcome ((Project.reset now ;; Project.getTimeSpent later) this)
     = Ok (Int 0)
  /\ (_state this = Str Project.State.STOPPED ->
      log (Project.reset now this)
      = notification (final (Project.reset now this))).
Proof.
  assert (Hreset :
    exists stopped,
      Project.stop now this = (Ok tt, stopped, log (Project.stop now this))
      /\ _state stopped = Str Project.State.STOPPED
      /\ (_state this = Str Project.State.STOPPED ->
          stopped = this /\ log (Project.stop now this) = [])).
  { rewrite stop_returns.
    destruct (value_eqb (_state this) (Str Project.State.STOPPED)) eqn:E.
    - exists this. apply value_eqb_eq in E. repeat split; auto.
    - eexists. split; [reflexivity|]. split; [reflexivity|].
      intros H. rewrite H in E. discriminate. }
  destruct Hreset as [stopped [Hstop [Hstate Hsame]]].
  assert (Hfull :
    Project.reset now this
    = (Ok tt,
       {| _name := _name stopped;
          _state := _state stopped;
          _timeSpentInPreviousIterations := Int 0;
          _currentIterationStartTime := _currentIterationStartTime stopped;
          _onChange := _onChange stopped |},
       log (Project.stop now this)
       ++ notification
            {| _name := _name stopped;
               _state := _state stopped;
               _timeSpentInPreviousIterations := Int 0;
               _currentIterationStartTime := _currentIterationStartTime stopped;
               _onChange := _onChange stopped |})).
  { unfold Project.reset. rewrite (bind_ok _ _ _ _ _ _ Hstop).
    unfold notification. destruct stopped as [n s t c h]; simpl.
    destruct h; reflexivity. }
  split; [now rewrite Hfull|]. split; [now rewrite Hfull|].
  split; [now rewrite Hfull|]. split.
  - rewrite (bind_ok _ _ _ _ _ _ Hfull), getTimeSpent_returns.
    cbn [_state _timeSpentInPreviousIterations]. rewrite Hstate. reflexivity.
  - intros H. destruct (Hsame H) as [-> Hlog]. rewrite Hfull, Hlog.
    reflexivity.
Qed.

Lemma reset_zeroes_every_project_witness :
  log (Project.reset 100 sampleAlpha)
  = notification (final (Project.reset 100 sampleAlpha)).
Proof.
  apply (reset_zeroes_every_project 100 100 sampleAlpha). reflexivity.
Defined.

(** ** Serialization: errors, missing and extra fields *)

Lemma Encode_ill_formed_upto n :
  forall s, (List.length s <= n)%nat ->
  Forall isCodeUnit s ->
  isWellFormed s = false -> Encode s = Throw URIError.
Proof.
  induction n as [|n IH]; intros s Hlen Hunits Hwf.
  - destruct s; [discriminate | simpl in Hlen; lia].
  - destruct s as [|C rest]; [discriminate|].
    simpl in Hlen. inversion Hunits as [|? ? HC Hrest]; subst.
    unfold isCodeUnit in HC. cbn [isWellFormed] in Hwf. cbn [Encode].
    destruct (isLeadingSurrogate C) eqn:Hlead.
    + replace (uriUnescaped C) with false.
      2:{ symmetry. unfold isLeadingSurrogate in Hlead.
          apply andb_true_iff in Hlead as [H1 H2]. apply Z.leb_le in H1, H2.
          unfold uriUnescaped. decide_tests; reflexivity. }
      destruct rest as [|D rest']; [reflexivity|].
      destruct (isTrailingSurrogate D); [|reflexivity].
      inversion Hrest; subst. cbn [andb] in Hwf.
      rewrite (IH rest'); [reflexivity | simpl in Hlen; lia | assumption
                          | exact Hwf].
    + destruct (isTrailingSurrogate C) eqn:Htrail.
      * replace (uriUnescaped C) with false; [reflexivity|].
        symmetry. unfold isTrailingSurrogate in Htrail.
        apply andb_true_iff in Htrail as [H1 H2]. apply Z.leb_le in H1, H2.
        unfold uriUnescaped. decide_tests; reflexivity.
      * rewrite (proj2 (Z.leb_le 0 C)), (proj2 (Z.leb_le C 65535)) in Hwf
          by lia.
        cbn [negb andb] in Hwf.
        rewrite (IH rest); [|lia | assumption | exact Hwf].
        destruct (uriUnescaped C); reflexivity.
Qed.

Lemma Encode_only_raises_URIError s e : Encode s = Throw e -> e = URIError.
Proof.
  remember (List.length s) as n eqn:Hn.
  assert (Hlen : (List.length s <= n)%nat) by lia. clear Hn.
  revert s Hlen. induction n as [|n IH]; intros s Hlen.
  - destruct s; [discriminate | simpl in Hlen; lia].
  - destruct s as [|C rest]; [discriminate|]. simpl in Hlen. simpl.
    destruct (uriUnescaped C).
    { destruct (Encode rest) eqn:E; [discriminate|].
      intros [= <-]. apply (IH rest); [lia | assumption]. }
    destruct (isLeadingSurrogate C).
    { destruct rest as [|D rest']; [now intros [= <-]|].
      destruct (isTrailingSurrogate D); [|now intros [= <-]].
      destruct (Encode rest') eqn:E; [discriminate|].
      intros [= <-]. apply (IH rest'); [simpl in Hlen; lia | assumption]. }
    destruct (isTrailingSurrogate C); [now intros [= <-]|].
    destruct (Encode rest) eqn:E; [discriminate|].
    intros [= <-]. apply (IH rest); [lia | assumption].
Qed.

(** X5. [Project.serialize] raises exactly when the name is not well-formed
    text (it holds a surrogate that is not paired), the exception is then
    [URIError], and in every case the project is left as it was and no
    handler is called. *)
Theorem serialize_raises_on_lone_surrogates (this : Project) :
  Forall isCodeUnit (_name this) ->
  (isWellFormed (_name this) = false
   <-> outcome (Project.serialize this) = Throw URIError)
  /\ (forall e, outcome (Project.serialize this) = Throw e -> e = URIError)
  /\ final (Project.serialize this) = this
  /\ log (Project.serialize this) = [].
Proof.
  intros Hunits. rewrite serialize_returns. unfold encodeURIComponent.
  split; [split|].
  - intros Hwf.
    rewrite (Encode_ill_formed_upto _ _ (le_n _) Hunits Hwf). reflexivity.
  - destruct (isWellFormed (_name this)) eqn:Hwf; [|reflexivity].
    destruct (encodeURIComponent_roundtrip _ Hwf) as [encoded [HE _]].
    unfold encodeURIComponent in HE. rewrite HE. discriminate.
  - destruct (Encode (_name this)) as [name|e0] eqn:E.
    + repeat split. discriminate.
    + repeat split. intros e [= <-]. now apply (Encode_only_raises_URIError _ _ E).
Qed.

Lemma serialize_raises_on_lone_surrogates_witness :
  outcome (Project.serialize sampleLoneSurrogate) = Throw URIError.
Proof.
  apply (serialize_raises_on_lone_surrogates sampleLoneSurrogate).
  - apply Forall_cons; [unfold isCodeUnit; lia | apply Forall_nil].
  - reflexivity.
Defined.

(** X6. The time spent survives the text: decoding the text of a valid
    project into any project gives a project whose time spent, at every
    clock reading, is that of the original (a running project keeps
    running from the same start). *)
Theorem time_spent_survives_roundtrip (now : Z) (p q : Project) :
  validProject p ->
  exists text,
    outcome (Project.serialize p) = Ok text
    /\ outcome (Project.deserialize text q) = Ok tt
    /\ outcome (Project.getTimeSpent now (final (Project.deserialize text q)))
       = outcome (Project.getTimeSpent now p).
Proof.
  intros Hp. destruct (project_roundtrip p q Hp) as [text [Hs [Hd _]]].
  exists text. rewrite Hs, Hd, !getTimeSpent_returns. repeat split.
Qed.

Lemma time_spent_survives_roundtrip_witness :
  exists text,
    outcome (Project.serialize sampleBeta) = Ok text
    /\ outcome (Project.deserialize text sampleAlpha) = Ok tt
    /\ outcome (Project.getTimeSpent 5000
                  (final (Project.deserialize text sampleAlpha)))
       = outcome (Project.getTimeSpent 5000 sampleBeta).
Proof.
  apply (time_spent_survives_roundtrip 5000 sampleBeta sampleAlpha).
  split; [reflexivity|]. split; [right; reflexivity|].
  split; [exists 12 | exists 34]; (split; [reflexivity|]);
    unfold safe_integer; lia.
Defined.

(** X7. A text without any [&] decodes to a project that only has a name:
    the state is [undefined] and both times are [NaN], so the project is
    neither stopped nor running and its time spent is [NaN]. *)
Theorem deserialize_without_fields (text name : jsstring) (now : Z)
  (this : Project) :
  occurrences 38 text = 0%nat ->
  decodeURIComponent text = Ok name ->
  Project.deserialize text this
  = (Ok tt,
     {| _name := name;
        _state := Undefined;
        _timeSpentInPreviousIterations := NaN;
        _currentIterationStartTime := NaN;
        _onChange := _onChange this |},
     [])
  /\ outcome ((Project.deserialize text ;; Project.isStopped) this) = Ok false
  /\ outcome ((Project.deserialize text ;; Project.isRunning) this) = Ok false
  /\ outcome ((Project.deserialize text ;; Project.getTimeSpent now) this)
     = Ok NaN.
Proof.
  intros Hsep Hname.
  assert (H : Project.deserialize text this
              = (Ok tt,
                 {| _name := name;
                    _state := Undefined;
                    _timeSpentInPreviousIterations := NaN;
                    _currentIterationStartTime := NaN;
                    _onChange := _onChange this |},
                 [])).
  { rewrite deserialize_returns, (split_without_separator 38 text Hsep).
    cbn [index nth_error ToString]. rewrite Hname. reflexivity. }
  split; [exact H|].
  rewrite !(bind_ok _ _ _ _ _ _ H), getTimeSpent_returns. repeat split.
Qed.

Lemma deserialize_without_fields_witness :
  Project.deserialize (lit "Alpha") sampleBeta
  = (Ok tt,
     {| _name := lit "Alpha";
        _state := Undefined;
        _timeSpentInPreviousIterations := NaN;
        _currentIterationStartTime := NaN;
        _onChange := NoFunction |},
     []).
Proof.
  apply (deserialize_without_fields (lit "Alpha") (lit "Alpha") 0 sampleBeta);
    reflexivity.
Defined.

Lemma split_not_empty sep s : split sep s <> [].
Proof.
  destruct s as [|c s]; simpl; [discriminate|].
  destruct (c =? sep); [discriminate|]. destruct (split sep s); discriminate.
Qed.

Lemma split_app_separator sep s t :
  split sep (s ++ sep :: t) = split sep s ++ split sep t.
Proof.
  induction s as [|c s IH]; simpl.
  - now rewrite Z.eqb_refl.
  - destruct (c =? sep); [now rewrite IH|]. rewrite IH.
    pose proof (split_not_empty sep s) as Hne.
    destruct (split sep s); [easy | reflexivity].
Qed.

Lemma length_split sep s :
  List.length (split sep s) = S (occurrences sep s).
Proof.
  induction s as [|c s IH]; [reflexivity|].
  rewrite occurrences_cons. simpl. destruct (c =? sep).
  - simpl. now rewrite IH.
  - pose proof (split_not_empty sep s) as Hne.
    destruct (split sep s); [easy|]. simpl in *. exact IH.
Qed.

(** X8. Fields after the fourth are ignored: appending [&] and anything to
    a text that has its four fields does not change what
    [Project.deserialize] does with it. *)
Theorem deserialize_ignores_extra_fields (text extra : jsstring)
  (this : Project) :
  occurrences 38 text = 3%nat ->
  Project.deserialize (text ++ 38 :: extra) this
  = Project.deserialize text this.
Proof.
  intros Hfour. rewrite !deserialize_returns, split_app_separator.
  pose proof (length_split 38 text) as Hlen. rewrite Hfour in Hlen.
  unfold index. rewrite !nth_error_app1 by (rewrite Hlen; lia).
  reflexivity.
Qed.

Lemma deserialize_ignores_extra_fields_witness :
  Project.deserialize (lit "Alpha&running&12&34" ++ 38 :: lit "x&y") sampleAlpha
  = Project.deserialize (lit "Alpha&running&12&34") sampleAlpha.
Proof.
  apply (deserialize_ignores_extra_fields (lit "Alpha&running&12&34")
           (lit "x&y") sampleAlpha).
  reflexivity.
Defined.

Lemma bind_throw_eq {St A B} (m : M St A) (k : A -> M St B) s e s' evs :
  m s = (Throw e, s', evs) -> bind m k s = (Throw e, s', evs).
Proof. intros H. unfold bind. now rewrite H. Qed.

(** ** The list: lookup, insertion, removal, traversal *)

(** X9. [get] never raises and mutates nothing; it returns [undefined]
    exactly for the indices outside [0, length). *)
Theorem get_is_undefined_out_of_bounds (index : Z) (this : Projects) :
  exists found,
    Projects.get index this = (Ok found, this, [])
    /\ (found = None
        <-> index < 0 \/ Z.of_nat (List.length (_projects this)) <= index).
Proof.
  unfold Projects.get, bind, self, ret. cbn.
  destruct (Z.ltb_spec index 0) as [Hneg | Hpos].
  - exists None. split; [reflexivity|]. split; [intros _; now left | reflexivity].
  - exists (nth_error (_projects this) (Z.to_nat index)).
    split; [reflexivity|]. rewrite nth_error_None. split; intros H.
    + right. lia.
    + destruct H; lia.
Qed.

(** X10. After [add(project)] the list is one longer, [get] returns the new
    project at the old length and what it returned before at every other
    index, and [onAdd], if set, has been called once, with the project, when
    the list already held it. *)
Theorem add_then_get (project : Project) (this : Projects) (index : Z) :
  outcome (Projects.add project this) = Ok tt
  /\ outcome (Projects.length (final (Projects.add project this)))
     = Ok (Z.of_nat (List.length (_projects this)) + 1)
  /\ outcome (Projects.get index (final (Projects.add project this)))
     = (if index =? Z.of_nat (List.length (_projects this))
        then Ok (Some project)
        else outcome (Projects.get index this))
  /\ log (Projects.add project this)
     = match _onAdd this with
       | Function f =>
           [OnAdd f project (final (Projects.add project this))]
       | NoFunction => []
       end.
Proof.
  rewrite add_returns. unfold outcome, final, log; cbn [fst snd].
  split; [reflexivity|]. split.
  - cbn. rewrite length_app. cbn. f_equal. lia.
  - split; [|reflexivity].
    unfold Projects.get, bind, self, ret. cbn.
    destruct (Z.ltb_spec index 0) as [Hneg | Hpos].
    + destruct (Z.eqb_spec index (Z.of_nat (List.length (_projects this))));
        [lia | reflexivity].
    + destruct (Z.eqb_spec index (Z.of_nat (List.length (_projects this))))
        as [-> | Hne].
      * rewrite Nat2Z.id, nth_error_app2, Nat.sub_diag by lia. reflexivity.
      * f_equal.
        destruct (Nat.lt_ge_cases (Z.to_nat index)
                    (List.length (_projects this))) as [Hlt | Hge].
        -- now rewrite nth_error_app1.
        -- rewrite (proj2 (nth_error_None _ _) Hge).
           apply nth_error_None. rewrite length_app. simpl. lia.
Qed.

(** X11. Removing at the old length the project that [add] has just
    appended gives the list back as it was. *)
Theorem add_then_remove_last (project : Project) (this : Projects) :
  final ((Projects.add project ;;
          Projects.remove (Z.of_nat (List.length (_projects this)))) this)
  = this.
Proof.
  rewrite (bind_ok _ _ _ _ _ _ (add_returns project this)), remove_returns.
  unfold final; cbn [fst snd _projects _onAdd _onRemove].
  rewrite splice1_in_range by (rewrite length_app; simpl; lia).
  rewrite Nat2Z.id, firstn_app, firstn_all, Nat.sub_diag.
  rewrite skipn_all2 by (rewrite length_app; simpl; lia).
  cbn [firstn]. rewrite !app_nil_r. now destruct this.
Qed.

(** X12. [remove] with a negative index is not a no-op: [splice] counts the
    index from the end (and from the start when it is below minus the
    length), so on a list that is not empty one project is removed, at
    position [max (length + index) 0]. *)
Theorem remove_negative_index (index : Z) (this : Projects) :
  index < 0 -> _projects this <> [] ->
  _projects (final (Projects.remove index this))
  = firstn (Z.to_nat (Z.max (Z.of_nat (List.length (_projects this)) + index) 0))
      (_projects this)
    ++ skipn (S (Z.to_nat (Z.max (Z.of_nat (List.length (_projects this))
                                  + index) 0)))
         (_projects this)
  /\ S (List.length (_projects (final (Projects.remove index this))))
     = List.length (_projects this).
Proof.
  intros Hneg Hne. rewrite remove_returns. unfold final; cbn [fst snd _projects].
  set (l := _projects this) in *.
  assert (Hlen : (0 < List.length l)%nat)
    by (destruct l; [easy | simpl; lia]).
  set (k := Z.max (Z.of_nat (List.length l) + index) 0).
  assert (Hk : 0 <= k < Z.of_nat (List.length l)) by lia.
  assert (Hsplice : splice1 l index
                    = firstn (Z.to_nat k) l ++ skipn (S (Z.to_nat k)) l).
  { unfold splice1. destruct (Z.ltb_spec index 0); [|lia]. fold k.
    replace (Z.min (Z.max 1 0) (Z.of_nat (List.length l) - k)) with 1 by lia.
    now replace (Z.to_nat (k + 1)) with (S (Z.to_nat k)) by lia. }
  rewrite Hsplice. split; [reflexivity|].
  rewrite length_app, length_firstn, length_skipn. lia.
Qed.

Lemma remove_negative_index_witness :
  _projects (final (Projects.remove (-5) sampleList)) = [sampleBeta]
  /\ S (List.length (_projects (final (Projects.remove (-5) sampleList))))
     = 2%nat.
Proof.
  apply (remove_negative_index (-5) sampleList); [lia | discriminate].
Defined.

(** X13. [forEach] calls the callback on the projects in order, with
    indices counting from 0, and stops at the first call that raises: the
    projects after it are not visited and the exception is that of the
    callback. *)
Theorem forEach_stops_at_first_exception {Env}
  (callback : Project -> nat -> Projects -> M Env unit) (this : Projects)
  (visited rest : list Project) (failing : Project)
  (env env1 env2 : Env) (evs1 evs2 : list Event) (e : exn) :
  _projects this = visited ++ failing :: rest ->
  Projects.forEach_from callback this 0 visited env = (Ok tt, env1, evs1) ->
  callback failing (List.length visited) this env1 = (Throw e, env2, evs2) ->
  Projects.forEach callback this env = (Throw e, env2, evs1 ++ evs2).
Proof.
  intros Hl Hvisited Hfail. unfold Projects.forEach. rewrite Hl.
  assert (Hgen : forall l i env0 evs0,
             Projects.forEach_from callback this i l env0 = (Ok tt, env1, evs0) ->
             callback failing (i + List.length l)%nat this env1
             = (Throw e, env2, evs2) ->
             Projects.forEach_from callback this i (l ++ failing :: rest) env0
             = (Throw e, env2, evs0 ++ evs2)).
  { clear. induction l as [|p l IH]; intros i env0 evs0 Hok Hthrow.
    - injection Hok as <- <-. rewrite Nat.add_0_r in Hthrow.
      cbn [app Projects.forEach_from].
      now rewrite (bind_throw_eq _ _ _ _ _ _ Hthrow).
    - cbn [app Projects.forEach_from] in *.
      unfold bind in *.
      destruct (callback p i this env0) as [[[[]|e0] s0] ev0];
        [|discriminate].
      specialize (IH (S i) s0).
      destruct (Projects.forEach_from callback this (S i) l s0)
        as [[r1 s1] ev1] eqn:E1.
      injection Hok as -> -> <-.
      rewrite (IH ev1 eq_refl)
        by (now replace (S i + List.length l)%nat
              with (i + List.length (p :: l))%nat by (simpl; lia)).
      now rewrite app_assoc. }
  now apply Hgen.
Qed.

Lemma forEach_stops_at_first_exception_witness :
  Projects.forEach (fun project index _ => updateProjectRow index project)
    sampleListWithBlank tt
  = (Throw (Thrown (lit "Invalid project state.")), tt,
     [RowUpdated 0 sampleAlpha] ++ []).
Proof.
  apply (forEach_stops_at_first_exception
           (fun project index _ => updateProjectRow index project)
           sampleListWithBlank [sampleAlpha] [sampleBeta] blankProject
           tt tt tt [RowUpdated 0 sampleAlpha] []
           (Thrown (lit "Invalid project state."))); reflexivity.
Defined.

(** ** Decoding a list in every case *)

Lemma addDeserialized_in_every_case onAdd onRemove serializedProjects :
  forall present,
  Projects.addDeserialized serializedProjects
    {| _projects := present; _onAdd := onAdd; _onRemove := onRemove |}
  = (decodingOutcome serializedProjects,
     {| _projects := present ++ decodedPrefix serializedProjects;
        _onAdd := onAdd; _onRemove := onRemove |},
     additionLog onAdd onRemove present (decodedPrefix serializedProjects)).
Proof.
  unfold decodingOutcome.
  induction serializedProjects as [|s rest IH]; intros present.
  - simpl. now rewrite app_nil_r.
  - cbn [Projects.addDeserialized decodedPrefix decodeProjects].
    unfold bind at 1, on.
    destruct (decodeProject s) as [p|e] eqn:Hp.
    + rewrite (decodeProject_returns _ _ Hp). cbn [rbind].
      rewrite (bind_ok _ _ _ _ _ _ (add_returns p _)).
      cbn [_projects _onAdd _onRemove]. rewrite IH.
      unfold outcome, final, log; cbn [fst snd additionLog app].
      rewrite <- !app_assoc. cbn [app].
      destruct (decodeProjects rest); reflexivity.
    + unfold decodeProject in Hp. rewrite deserialize_returns in Hp |- *.
      destruct (decodeURIComponent _); [discriminate|].
      injection Hp as ->. cbn. now rewrite app_nil_r.
Qed.

Lemma list_deserialize_returns (serialized : jsstring) (this : Projects) :
  Projects.deserialize serialized this
  = (decodingOutcome (split 124 serialized),
     {| _projects := decodedPrefix (split 124 serialized);
        _onAdd := _onAdd this;
        _onRemove := _onRemove this |},
     removalLog (_onAdd this) (_onRemove this) (_projects this)
     ++ additionLog (_onAdd this) (_onRemove this) []
          (decodedPrefix (split 124 serialized))).
Proof.
  destruct this as [l a r]. unfold Projects.deserialize.
  unfold bind at 1, self at 1. cbn [_projects _onAdd _onRemove].
  rewrite (bind_ok _ _ _ _ _ _ (removeWhileNotEmpty_empties a r l _ (le_n _))).
  rewrite addDeserialized_in_every_case. reflexivity.
Qed.

(** X14. [Projects.deserialize] in every case: it first removes every
    project the list held (calling [onRemove] with index 0 for each), then
    adds the projects decoded from the elements of the text, in order, until
    the first element whose name does not percent-decode; there it raises,
    leaving in the list the projects decoded before it.  The result depends
    on the text only, not on the projects the list held, and the two handler
    attributes are never changed. *)
Theorem deserialize_in_every_case (serialized : jsstring) (this : Projects) :
  Projects.deserialize serialized this
  = (decodingOutcome (split 124 serialized),
     {| _projects := decodedPrefix (split 124 serialized);
        _onAdd := _onAdd this;
        _onRemove := _onRemove this |},
     removalLog (_onAdd this) (_onRemove this) (_projects this)
     ++ additionLog (_onAdd this) (_onRemove this) []
          (decodedPrefix (split 124 serialized))).
Proof. apply list_deserialize_returns. Qed.

(** ** Saving, loading and the timer *)

Lemma bind_on {St O A B} (o : O) (m : M O A) (k : A * O -> M St B) (s : St) :
  bind (on o m) k s
  = match m o with
    | (Ok a, o', evs) =>
        (outcome (k (a, o') s), final (k (a, o') s), evs ++ log (k (a, o') s))
    | (Throw e, _, evs) => (Throw e, s, evs)
    end.
Proof.
  unfold bind, on. destruct (m o) as [[[a|e] o'] evs]; [|reflexivity].
  destruct (k (a, o') s) as [[r s'] evs']. reflexivity.
Qed.

Lemma serialize_loop_is_silent this l :
  forall i pushed,
  log (Projects.forEach_from
         (fun project _ _ =>
            '(s, _) <- on project Project.serialize ;;
            pushed <- self ;;
            set_self (pushed ++ [s]))
         this i l pushed) = [].
Proof.
  induction l as [|p l IH]; intros i pushed; [reflexivity|].
  cbn [Projects.forEach_from]. unfold bind at 1. rewrite bind_on.
  rewrite serialize_returns.
  destruct (encodeURIComponent (_name p)); [|reflexivity].
  cbn. specialize (IH (S i) (pushed ++ [join 38 (serializedFields a p)])).
  destruct (Projects.forEach_from _ this (S i) l _) as [[r s'] evs'].
  exact IH.
Qed.

Lemma list_serialize_frame (this : Projects) :
  exists r, Projects.serialize this = (r, this, []).
Proof.
  unfold Projects.serialize. unfold bind at 1, self at 1.
  rewrite bind_on. unfold Projects.forEach.
  pose proof (serialize_loop_is_silent this (_projects this) 0%nat [])
    as Hlog.
  destruct (Projects.forEach_from _ this 0 (_projects this) [])
    as [[[[]|e] texts] evs]; unfold log in Hlog; cbn [snd] in Hlog;
    subst evs; eexists; reflexivity.
Qed.

(** X15. [Projects.serialize] only reads: whether it returns the text or
    raises because a name is not well-formed, the list and its projects are
    left as they were and no handler is called. *)
Theorem list_serialize_only_reads (this : Projects) :
  final (Projects.serialize this) = this
  /\ log (Projects.serialize this) = [].
Proof.
  destruct (list_serialize_frame this) as [r ->]. split; reflexivity.
Qed.

Lemma saveProjects_returns (app : App) :
  saveProjects app
  = match outcome (Projects.serialize (projects app)) with
    | Ok text =>
        (Ok tt,
         {| projects := projects app;
            lastSerializedProjectsString := Str text;
            storage := Str text |},
         [])
    | Throw e => (Throw e, app, [])
    end.
Proof.
  unfold saveProjects. unfold bind at 1, onProjects.
  destruct (list_serialize_frame (projects app)) as [r ->].
  destruct app as [ps last st]. destruct r; reflexivity.
Qed.

(** X16. [saveProjects] in every case: when the list serializes, the text
    is written both to the storage and to [lastSerializedProjectsString], the
    list is untouched, no handler is called, and
    [projectsHaveChangedOutsideApplication] then answers no; when a name is
    not well-formed, the exception propagates and nothing is written. *)
Theorem saveProjects_in_every_case (app : App) :
  match outcome (Projects.serialize (projects app)) with
  | Ok text =>
      saveProjects app
      = (Ok tt,
         {| projects := projects app;
            lastSerializedProjectsString := Str text;
            storage := Str text |},
         [])
      /\ outcome (projectsHaveChangedOutsideApplication
                    (final (saveProjects app))) = Ok false
  | Throw e => saveProjects app = (Throw e, app, [])
  end.
Proof.
  rewrite saveProjects_returns.
  destruct (outcome (Projects.serialize (projects app))) as [text|e];
    [|reflexivity].
  split; [reflexivity|].
  unfold projectsHaveChangedOutsideApplication, outcome, final. cbn.
  now rewrite (proj2 (jsstring_eqb_eq text text) eq_refl).
Qed.

Lemma refresh_keeps_state {St} (this : Projects) l :
  forall i (s : St),
  final (Projects.forEach_from
           (fun project index _ => updateProjectRow index project) this i l s)
  = s.
Proof.
  induction l as [|p l IH]; intros i s; [reflexivity|].
  cbn [Projects.forEach_from]. unfold bind at 1, updateProjectRow at 1.
  unfold bind at 1, lift, emit.
  destruct (computeStartStopLinkImageUrl (_state p)); [|reflexivity].
  specialize (IH (S i) s). unfold final in *.
  destruct (Projects.forEach_from _ this (S i) l s) as [[r s'] evs].
  exact IH.
Qed.

Lemma timerTick_same_text (app : App) :
  Forall (fun p => validState (_state p)) (_projects (projects app)) ->
  storage app = lastSerializedProjectsString app ->
  timerTick app = (Ok tt, app, refreshLog 0 (_projects (projects app))).
Proof.
  intros Hvalid Hsame. unfold timerTick. unfold bind at 1, self at 1.
  unfold Projects.forEach.
  rewrite (bind_ok _ _ _ _ _ _
             (refresh_returns (projects app) app _ 0%nat Hvalid)).
  unfold projectsHaveChangedOutsideApplication, loadSerializedProjectsString.
  cbn. rewrite Hsame.
  rewrite (proj2 (value_eqb_eq _ _) eq_refl). cbn. now rewrite app_nil_r.
Qed.

(** X17. A tick right after [saveProjects] changes nothing: when every
    project has a valid state and the list serializes, the tick only
    refreshes the rows; it removes and adds no project and leaves the
    storage and the last written text as [saveProjects] set them. *)
Theorem tick_after_save_changes_nothing (app : App) (text : jsstring) :
  Forall (fun p => validState (_state p)) (_projects (projects app)) ->
  outcome (Projects.serialize (projects app)) = Ok text ->
  (saveProjects ;; timerTick) app
  = (Ok tt,
     {| projects := projects app;
        lastSerializedProjectsString := Str text;
        storage := Str text |},
     refreshLog 0 (_projects (projects app))).
Proof.
  intros Hvalid Htext.
  assert (Hsave := saveProjects_returns app). rewrite Htext in Hsave.
  rewrite (bind_ok _ _ _ _ _ _ Hsave).
  rewrite timerTick_same_text by (assumption || reflexivity).
  reflexivity.
Qed.

Lemma tick_after_save_changes_nothing_witness :
  (saveProjects ;; timerTick) sampleApp
  = (Ok tt,
     {| projects := sampleList;
        lastSerializedProjectsString :=
          Str (lit "Alpha&stopped&0&0|Beta&running&12&34");
        storage := Str (lit "Alpha&stopped&0&0|Beta&running&12&34") |},
     refreshLog 0 [sampleAlpha; sampleBeta]).
Proof.
  apply (tick_after_save_changes_nothing sampleApp
           (lit "Alpha&stopped&0&0|Beta&running&12&34")).
  - apply Forall_cons; [left; reflexivity|].
    apply Forall_cons; [right; reflexivity|]. apply Forall_nil.
  - reflexivity.
Defined.

Lemma loadProjects_returns (app : App) (text : jsstring) :
  storage app = Str text ->
  loadProjects app
  = (decodingOutcome (split 124 text),
     {| projects :=
          {| _projects := decodedPrefix (split 124 text);
             _onAdd := _onAdd (projects app);
             _onRemove := _onRemove (projects app) |};
        lastSerializedProjectsString :=
          match decodingOutcome (split 124 text) with
          | Ok _ => Str text
          | Throw _ => lastSerializedProjectsString app
          end;
        storage := Str text |},
     removalLog (_onAdd (projects app)) (_onRemove (projects app))
       (_projects (projects app))
     ++ additionLog (_onAdd (projects app)) (_onRemove (projects app)) []
          (decodedPrefix (split 124 text))).
Proof.
  intros Hs. destruct app as [ps last st]; simpl in Hs; subst st.
  unfold loadProjects, loadSerializedProjectsString.
  unfold bind at 1, bind at 1, self at 1, ret at 1. cbn [storage].
  unfold bind at 1, onProjects. cbn [projects].
  rewrite list_deserialize_returns.
  destruct (decodingOutcome (split 124 text)) as [[]|e]; cbn;
    now rewrite ?app_nil_r.
Qed.

(** X18. Persistence across instances: when an instance saves a list that
    holds at least one project, all valid, any instance that then loads from
    the same storage ends with as many projects, in the same order, each
    with the four fields of the original, and records the text as the last
    one it has seen. *)
Theorem save_then_load_elsewhere (app other : App) :
  _projects (projects app) <> [] ->
  Forall validProject (_projects (projects app)) ->
  storage other = storage (final (saveProjects app)) ->
  outcome (saveProjects app) = Ok tt
  /\ outcome (loadProjects other) = Ok tt
  /\ Forall2 sameFields
       (_projects (projects (final (loadProjects other))))
       (_projects (projects app))
  /\ lastSerializedProjectsString (final (loadProjects other))
     = storage (final (saveProjects app)).
Proof.
  intros Hne Hvalid Hshared.
  destruct (projects_roundtrip (projects app) (projects other) Hne Hvalid)
    as [text [Hser [Hout [_ Hfields]]]].
  assert (Hsave := saveProjects_returns app).
  rewrite Hser in Hsave. cbn [outcome fst] in Hsave.
  rewrite Hsave in Hshared |- *. cbn [final outcome fst snd storage] in *.
  rewrite list_deserialize_returns in Hout, Hfields.
  cbn [final outcome fst snd _projects] in Hout, Hfields.
  rewrite (loadProjects_returns other text Hshared), Hout.
  cbn. repeat split. exact Hfields.
Qed.

Lemma save_then_load_elsewhere_witness :
  outcome (saveProjects sampleApp) = Ok tt
  /\ outcome (loadProjects (final (saveProjects sampleApp))) = Ok tt
  /\ Forall2 sameFields
       (_projects (projects (final (loadProjects
                                     (final (saveProjects sampleApp))))))
       [sampleAlpha; sampleBeta]
  /\ lastSerializedProjectsString
       (final (loadProjects (final (saveProjects sampleApp))))
     = storage (final (saveProjects sampleApp)).
Proof.
  destruct (save_then_load_elsewhere sampleApp (final (saveProjects sampleApp)))
    as [H1 [H2 [H3 H4]]].
  - discriminate.
  - apply Forall_cons.
    + split; [reflexivity|]. split; [left; reflexivity|].
      split; exists 0; (split; [reflexivity|]); unfold safe_integer; lia.
    + apply Forall_cons; [|apply Forall_nil].
      split; [reflexivity|]. split; [right; reflexivity|].
      split; [exists 12 | exists 34]; (split; [reflexivity|]);
        unfold safe_integer; lia.
  - reflexivity.
  - repeat split; assumption.
Defined.

Lemma decodeProject_raises serializedProject e :
  decodeProject serializedProject = Throw e ->
  Project.deserialize serializedProject (Project.new [])
  = (Throw e, Project.new [], []).
Proof.
  unfold decodeProject. rewrite deserialize_returns.
  destruct (decodeURIComponent _); [discriminate | intros [= <-]; reflexivity].
Qed.

(** X19. In the application a stored text that does not decode is retried
    for ever: when the projects in memory have valid states and the stored
    text differs from the last written one, and its elements decode to
    projects of valid state up to one whose name does not percent-decode,
    the tick raises that exception, the list is left with the projects
    decoded before that element (field for field, each with the handler of
    its row), the last written text is not updated, and so the next tick
    sees a change again. *)
Theorem tick_on_undecodable_text (app : App) (text bad : jsstring)
  (good rest : list jsstring) (decoded : list Project) (e : exn) :
  Forall (fun p => validState (_state p)) (_projects (projects app)) ->
  storage app = Str text ->
  lastSerializedProjectsString app <> Str text ->
  split 124 text = good ++ bad :: rest ->
  decodeProjects good = Ok decoded ->
  Forall (fun p => validState (_state p)) decoded ->
  decodeProject bad = Throw e ->
  outcome (Application.timerTick app) = Throw e
  /\ _projects (projects (final (Application.timerTick app)))
     = installed (_onAdd (projects app)) 0 decoded
  /\ Forall2 sameFields
       (_projects (projects (final (Application.timerTick app)))) decoded
  /\ lastSerializedProjectsString (final (Application.timerTick app))
     = lastSerializedProjectsString app
  /\ storage (final (Application.timerTick app)) = Str text
  /\ outcome (projectsHaveChangedOutsideApplication
                (final (Application.timerTick app))) = Ok true.
Proof.
  intros Hvalid Hs Hdiff Hsplit Hd Hstates Hbad.
  rewrite (application_tick_on_changed_text app text Hvalid Hs Hdiff).
  rewrite (application_loadProjects_returns app text Hs).
  rewrite (application_deserialize_prefix text good (bad :: rest) decoded
             (projects app) Hsplit Hd Hstates).
  assert (Hraise : forall this,
             Application.addDeserialized (bad :: rest) this
             = (Throw e, this, [])).
  { intros this. cbn [Application.addDeserialized].
    unfold bind at 1, on. now rewrite (decodeProject_raises _ _ Hbad). }
  rewrite Hraise. unfold outcome, final, log; cbn [fst snd projects
    _projects lastSerializedProjectsString storage].
  split; [reflexivity|]. split; [reflexivity|].
  split; [apply installed_sameFields|].
  split; [reflexivity|]. split; [reflexivity|].
  unfold projectsHaveChangedOutsideApplication,
    loadSerializedProjectsString, bind, self, ret.
  cbn [fst snd storage lastSerializedProjectsString].
  destruct (value_eqb (Str text) (lastSerializedProjectsString app)) eqn:E;
    [|reflexivity].
  apply value_eqb_eq in E. congruence.
Qed.

Lemma tick_on_undecodable_text_witness :
  outcome (Application.timerTick
             (applicationStoring (lit "Gamma&running&7&1000|%")))
  = Throw URIError
  /\ _projects (projects (final (Application.timerTick
                                   (applicationStoring
                                      (lit "Gamma&running&7&1000|%")))))
     = [withRowHandler 0 sampleGamma]
  /\ Forall2 sameFields
       (_projects (projects (final (Application.timerTick
                                     (applicationStoring
                                        (lit "Gamma&running&7&1000|%"))))))
       [sampleGamma]
  /\ lastSerializedProjectsString
       (final (Application.timerTick
                 (applicationStoring (lit "Gamma&running&7&1000|%"))))
     = Str (lit "Alpha&stopped&0&0|Beta&running&12&34")
  /\ storage (final (Application.timerTick
                       (applicationStoring (lit "Gamma&running&7&1000|%"))))
     = Str (lit "Gamma&running&7&1000|%")
  /\ outcome (projectsHaveChangedOutsideApplication
                (final (Application.timerTick
                          (applicationStoring
                             (lit "Gamma&running&7&1000|%"))))) = Ok true.
Proof.
  apply (tick_on_undecodable_text
           (applicationStoring (lit "Gamma&running&7&1000|%"))
           (lit "Gamma&running&7&1000|%") (lit "%")
           [lit "Gamma&running&7&1000"] [] [sampleGamma] URIError).
  - apply Forall_cons; [left; reflexivity|].
    apply Forall_cons; [right; reflexivity|]. apply Forall_nil.
  - reflexivity.
  - discriminate.
  - reflexivity.
  - reflexivity.
  - apply Forall_cons; [right; reflexivity | apply Forall_nil].
  - reflexivity.
Defined.

Lemma timerTick_after_refresh (app : App) :
  timerTick app
  = match Projects.forEach_from
            (fun project index _ => updateProjectRow index project)
            (projects app) 0 (_projects (projects app)) app with
    | (Ok _, _, evs) =>
        (outcome ((changed <- projectsHaveChangedOutsideApplication ;;
                   if changed then loadProjects else ret tt) app),
         final ((changed <- projectsHaveChangedOutsideApplication ;;
                 if changed then loadProjects else ret tt) app),
         evs ++ log ((changed <- projectsHaveChangedOutsideApplication ;;
                      if changed then loadProjects else ret tt) app))
    | (Throw e, _, evs) => (Throw e, app, evs)
    end.
Proof.
  unfold timerTick. unfold bind at 1, self at 1.
  unfold Projects.forEach. unfold bind at 1.
  pose proof (refresh_keeps_state (St := App) (projects app)
                (_projects (projects app)) 0%nat app) as Hstate.
  destruct (Projects.forEach_from _ (projects app) 0 _ app)
    as [[[[]|e0] s0] evs0]; unfold final in Hstate; cbn [fst snd] in Hstate;
    subst s0; [|reflexivity].
  destruct ((changed <- projectsHaveChangedOutsideApplication ;;
             if changed then loadProjects else ret tt) app)
    as [[r s1] evs1]. reflexivity.
Qed.

(** X20. A tick that returns normally leaves the application in step with
    the storage: if the storage holds a text, the last written text is that
    text afterwards and the storage itself is untouched. *)
Theorem tick_that_returns_is_in_step (app : App) (text : jsstring) :
  storage app = Str text ->
  outcome (timerTick app) = Ok tt ->
  lastSerializedProjectsString (final (timerTick app)) = Str text
  /\ storage (final (timerTick app)) = Str text.
Proof.
  intros Hs.
  rewrite timerTick_after_refresh.
  destruct (Projects.forEach_from _ (projects app) 0 _ app)
    as [[[[]|e0] s0] evs0]; [|discriminate].
  assert (Hchanged : projectsHaveChangedOutsideApplication app
                     = (Ok (negb (value_eqb (storage app)
                                    (lastSerializedProjectsString app))),
                        app, [])) by reflexivity.
  rewrite (bind_ok _ _ _ _ _ _ Hchanged), Hs.
  destruct (value_eqb (Str text) (lastSerializedProjectsString app)) eqn:E.
  - apply value_eqb_eq in E. cbn. intros _. now split.
  - cbn [negb]. rewrite (loadProjects_returns app text Hs).
    destruct (decodingOutcome (split 124 text)) as [[]|e]; cbn;
      [now split | discriminate].
Qed.

Lemma tick_that_returns_is_in_step_witness :
  lastSerializedProjectsString (final (timerTick sampleAppBehind))
  = Str (lit "Gamma&running&7&1000")
  /\ storage (final (timerTick sampleAppBehind))
     = Str (lit "Gamma&running&7&1000").
Proof.
  apply (tick_that_returns_is_in_step sampleAppBehind
           (lit "Gamma&running&7&1000")); reflexivity.
Defined.

Lemma refresh_raises {St} (this : Projects) (s : St) visited failing rest :
  forall i,
  Forall (fun p => validState (_state p)) visited ->
  ~ validState (_state failing) ->
  Projects.forEach_from (fun project index _ => updateProjectRow index project)
    this i (visited ++ failing :: rest) s
  = (Throw (Thrown (lit "Invalid project state.")), s, refreshLog i visited).
Proof.
  induction visited as [|p l IH]; intros i Hl Hbad.
  - cbn [app Projects.forEach_from refreshLog].
    unfold bind, updateProjectRow at 1, lift, computeStartStopLinkImageUrl.
    destruct (value_eqb (_state failing) (Str Project.State.STOPPED)) eqn:E1;
      [apply value_eqb_eq in E1; elim Hbad; now left|].
    destruct (value_eqb (_state failing) (Str Project.State.RUNNING)) eqn:E2;
      [apply value_eqb_eq in E2; elim Hbad; now right|].
    reflexivity.
  - inversion Hl as [|? ? Hp Hl']; subst.
    cbn [app Projects.forEach_from refreshLog].
    assert (Hrow : updateProjectRow (St := St) i p s
                   = (Ok tt, s, [RowUpdated i p])).
    { unfold updateProjectRow. destruct Hp as [-> | ->]; reflexivity. }
    rewrite (bind_ok _ _ _ _ _ _ Hrow), (IH (S i) Hl' Hbad). reflexivity.
Qed.

(** X21. One project of invalid state stops the timer's work: the tick
    refreshes the rows before it, raises "Invalid project state." at that
    project, and never compares the storage; the application is left exactly
    as it was, whatever the storage holds. *)
Theorem tick_stops_at_invalid_state (app : App)
  (visited rest : list Project) (failing : Project) :
  _projects (projects app) = visited ++ failing :: rest ->
  Forall (fun p => validState (_state p)) visited ->
  ~ validState (_state failing) ->
  timerTick app
  = (Throw (Thrown (lit "Invalid project state.")), app,
     refreshLog 0 visited).
Proof.
  intros Hl Hvisited Hbad. unfold timerTick. unfold bind at 1, self at 1.
  unfold Projects.forEach. rewrite Hl.
  rewrite (bind_throw_eq _ _ _ _ _ _
             (refresh_raises (projects app) app visited failing rest 0%nat
                Hvisited Hbad)).
  reflexivity.
Qed.

Lemma tick_stops_at_invalid_state_witness :
  timerTick sampleAppWithBlank
  = (Throw (Thrown (lit "Invalid project state.")), sampleAppWithBlank,
     refreshLog 0 [sampleAlpha]).
Proof.
  apply (tick_stops_at_invalid_state sampleAppWithBlank
           [sampleAlpha] [sampleBeta] blankProject).
  - reflexivity.
  - apply Forall_cons; [left; reflexivity | apply Forall_nil].
  - intros [H | H]; discriminate.
Defined.

(** ** Padding and the format of times *)

Lemma concat_repeat_app (padding : jsstring) n :
  List.concat (repeat padding n) ++ padding = padding ++ List.concat (repeat padding n).
Proof.
  induction n as [|n IH]; simpl; [now rewrite app_nil_r|].
  now rewrite <- app_assoc, IH.
Qed.

(** X22. With a padding that is not empty the loop of [pad] ends (within
    any fuel above the number of missing characters) and returns the string
    preceded by the least number of copies of the padding that makes it at
    least [length] long; a string already that long is returned as it is,
    and with a padding of one character the result is exactly [length]
    long. *)
Theorem pad_with_padding (fuel : nat) (this padding : jsstring) (length : Z) :
  padding <> [] ->
  (Z.to_nat (length - Z.of_nat (List.length this)) < fuel)%nat ->
  exists n,
    pad fuel this length padding = Some (List.concat (repeat padding n) ++ this)
    /\ length <= Z.of_nat (List.length (List.concat (repeat padding n) ++ this))
    /\ (n = 0%nat <-> length <= Z.of_nat (List.length this))
    /\ (n <> 0%nat ->
        Z.of_nat (List.length (List.concat (repeat padding n) ++ this))
        < length + Z.of_nat (List.length padding)).
Proof.
  intros Hpadding. revert this.
  assert (Hp : (0 < List.length padding)%nat)
    by (destruct padding; [easy | simpl; lia]).
  induction fuel as [|fuel IH]; intros this Hfuel; [lia|].
  cbn [pad]. destruct (Z.ltb_spec (Z.of_nat (List.length this)) length)
    as [Hshort | Hlong].
  - destruct (IH (padding ++ this)) as [n [Hpad [Hlen [Hzero Hleast]]]].
    { rewrite length_app. lia. }
    assert (Heq : List.concat (repeat padding (S n)) ++ this
                  = List.concat (repeat padding n) ++ padding ++ this).
    { cbn [repeat List.concat].
      now rewrite <- concat_repeat_app, <- app_assoc. }
    exists (S n). rewrite Heq.
    split; [exact Hpad|]. split; [exact Hlen|].
    split; [split; [discriminate | lia]|].
    intros _. destruct n as [|n].
    + cbn [repeat List.concat app]. rewrite length_app. lia.
    + specialize (Hleast ltac:(discriminate)).
      rewrite !length_app in *. lia.
  - exists 0%nat. cbn [repeat List.concat app].
    split; [reflexivity|]. split; [lia|]. split; [tauto | easy].
Qed.

Lemma pad_with_padding_witness :
  exists n,
    pad 5 (lit "7") 4 (lit "ab") = Some (List.concat (repeat (lit "ab") n) ++ lit "7")
    /\ 4 <= Z.of_nat (List.length (List.concat (repeat (lit "ab") n) ++ lit "7"))
    /\ (n = 0%nat <-> 4 <= Z.of_nat (List.length (lit "7")))
    /\ (n <> 0%nat ->
        Z.of_nat (List.length (List.concat (repeat (lit "ab") n) ++ lit "7"))
        < 4 + Z.of_nat (List.length (lit "ab"))).
Proof.
  apply (pad_with_padding 5 (lit "7") (lit "ab") 4); [discriminate|].
  simpl. lia.
Defined.

(** X23. With the empty padding [pad] never returns on a string shorter
    than [length]: the loop prepends nothing and its condition stays true,
    whatever the number of iterations allowed. *)
Theorem pad_with_empty_padding_never_returns (fuel : nat) (this : jsstring)
  (length : Z) :
  Z.of_nat (List.length this) < length ->
  pad fuel this length [] = None.
Proof.
  intros Hshort. induction fuel as [|fuel IH]; [reflexivity|].
  cbn [pad app].
  destruct (Z.ltb_spec (Z.of_nat (List.length this)) length); [exact IH | lia].
Qed.

Lemma pad_with_empty_padding_never_returns_witness :
  pad 1000 (lit "7") 2 [] = None.
Proof.
  apply (pad_with_empty_padding_never_returns 1000 (lit "7") 2). simpl. lia.
Defined.

Lemma digits_below_hundred m :
  0 <= m < 100 ->
  digits m = if m <? 10 then [48 + m] else [48 + m / 10; 48 + m mod 10].
Proof.
  intros Hm. unfold digits. destruct (Z.ltb_spec m 10) as [Hone | Htwo].
  - cbn [digits_from].
    destruct (Z.eqb_spec (m / 10) 0); [|lia].
    now rewrite Z.mod_small by lia.
  - assert (Hlog : 3 <= Z.log2 m)
      by (change 3 with (Z.log2 8); apply Z.log2_le_mono; lia).
    destruct (Z.to_nat (Z.log2 m)) as [|fuel] eqn:Hfuel; [lia|].
    cbn [digits_from].
    destruct (Z.eqb_spec (m / 10) 0); [lia|].
    destruct (Z.eqb_spec (m / 10 / 10) 0); [|lia].
    now rewrite (Z.mod_small (m / 10)) by lia.
Qed.

Lemma floors_of_formatTime t :
  Math_floor (real_div (real_div (toReal (Int t))
                          (toReal (Int MILISECONDS_IN_MINUTE)))
                (toReal (Int MINUTES_IN_HOUR)))
  = Int (t / 3600000)
  /\ Math_floor
       (real_sub (real_div (toReal (Int t)) (toReal (Int MILISECONDS_IN_MINUTE)))
          (toReal (num_mul (Int (t / 3600000)) (Int MINUTES_IN_HOUR))))
     = Int ((t / 60000) mod 60).
Proof.
  unfold Math_floor, real_sub, real_div, toReal, num_mul,
    MILISECONDS_IN_MINUTE, MILISECONDS_IN_SECOND, MINUTES_IN_HOUR.
  unfold Qround.Qfloor, QArith_base.Qminus, QArith_base.Qplus,
    QArith_base.Qopp, QArith_base.Qdiv, QArith_base.Qmult, QArith_base.Qinv,
    QArith_base.inject_Z.
  change (60 * 1000) with 60000. cbv beta iota.
  cbn [QArith_base.Qnum QArith_base.Qden].
  change (1 * 60000 * 60)%positive with 3600000%positive.
  change (1 * 60000 * 1)%positive with 60000%positive.
  change (1 * 60000)%positive with 60000%positive.
  split; f_equal; lia.
Qed.

(** X24. [formatTime] prints hours, a colon and minutes: for an integer
    time below 2^50 in absolute value the result is the decimal text of the
    whole hours [time / 3600000] (rounded down, also when negative), [:],
    and the minutes within the hour, [(time / 60000) mod 60], always with
    exactly two digits. *)
Theorem formatTime_is_hours_and_two_digit_minutes (fuel : nat) (t : Z) :
  (2 <= fuel)%nat ->
  - 2 ^ 50 < t < 2 ^ 50 ->
  formatTime fuel (Int t)
  = Some (Number_toString (Int (t / 3600000))
          ++ [58; 48 + ((t / 60000) mod 60) / 10;
              48 + ((t / 60000) mod 60) mod 10])
  /\ 0 <= (t / 60000) mod 60 < 60.
Proof.
  intros Hfuel _.
  pose proof (Z.mod_pos_bound (t / 60000) 60 eq_refl) as Hm.
  split; [|exact Hm].
  destruct (floors_of_formatTime t) as [Hhours Hminutes].
  unfold formatTime. cbv zeta. rewrite Hhours, Hminutes.
  set (m := (t / 60000) mod 60) in *.
  assert (Hpad : pad fuel (Number_toString (Int m)) 2 (lit "0")
                 = Some [48 + m / 10; 48 + m mod 10]).
  { unfold Number_toString. destruct (Z.ltb_spec m 0); [lia|].
    rewrite digits_below_hundred by lia.
    destruct fuel as [|[|fuel]]; [lia | lia |].
    destruct (Z.ltb_spec m 10).
    - cbn [pad List.length lit app]. cbn.
      rewrite Z.div_small, Z.mod_small by lia. reflexivity.
    - reflexivity. }
  rewrite Hpad. reflexivity.
Qed.

Lemma formatTime_is_hours_and_two_digit_minutes_witness :
  formatTime 2 (Int 45296000)
  = Some (Number_toString (Int (45296000 / 3600000))
          ++ [58; 48 + ((45296000 / 60000) mod 60) / 10;
              48 + ((45296000 / 60000) mod 60) mod 10])
  /\ 0 <= (45296000 / 60000) mod 60 < 60.
Proof.
  apply (formatTime_is_hours_and_two_digit_minutes 2 45296000); lia.
Defined.

(** ** First run, round trips and removal within bounds *)

(** X25. On the first run the storage has no entry: [loadProjects] then does
    nothing at all, and a tick (over projects of valid state) only refreshes
    the rows; the list and the last written text stay as they were. *)
Theorem first_run_changes_nothing (app : App) :
  Forall (fun p => validState (_state p)) (_projects (projects app)) ->
  storage app = Undefined ->
  loadProjects app = (Ok tt, app, [])
  /\ timerTick app = (Ok tt, app, refreshLog 0 (_projects (projects app))).
Proof.
  intros Hvalid Hs. split; [|now apply timerTick_absent_storage].
  unfold loadProjects, loadSerializedProjectsString.
  unfold bind at 1, bind at 1, self at 1, ret at 1. rewrite Hs.
  reflexivity.
Qed.

Lemma first_run_changes_nothing_witness :
  loadProjects sampleAppFirstRun = (Ok tt, sampleAppFirstRun, [])
  /\ timerTick sampleAppFirstRun
     = (Ok tt, sampleAppFirstRun, refreshLog 0 [sampleAlpha; sampleBeta]).
Proof.
  apply (first_run_changes_nothing sampleAppFirstRun).
  - apply Forall_cons; [left; reflexivity|].
    apply Forall_cons; [right; reflexivity|]. apply Forall_nil.
  - reflexivity.
Defined.

(** X26. The text of a valid project decodes to its four fields: for a
    project with a well-formed name, a state tag and safe-integer times,
    [serialize] returns a text without mutating the project, and
    [deserialize] of that text into any project returns normally, calls no
    handler, and sets exactly the name, state, accumulated time and
    iteration start of the original, keeping the [onChange] attribute of the
    project decoded into. *)
Theorem project_text_roundtrip (p q : Project) :
  validProject p ->
  exists text,
    Project.serialize p = (Ok text, p, [])
    /\ Project.deserialize text q
       = (Ok tt,
          {| _name := _name p;
             _state := _state p;
             _timeSpentInPreviousIterations := _timeSpentInPreviousIterations p;
             _currentIterationStartTime := _currentIterationStartTime p;
             _onChange := _onChange q |},
          [])
    /\ sameFields (final (Project.deserialize text q)) p.
Proof.
  intros Hp. destruct (project_roundtrip p q Hp) as [text [Hs [Hd [Hf _]]]].
  exists text. repeat split; assumption || apply Hf.
Qed.

Lemma project_text_roundtrip_witness :
  exists text,
    Project.serialize sampleBeta = (Ok text, sampleBeta, [])
    /\ Project.deserialize text sampleLoneSurrogate
       = (Ok tt,
          {| _name := lit "Beta";
             _state := Str Project.State.RUNNING;
             _timeSpentInPreviousIterations := Int 12;
             _currentIterationStartTime := Int 34;
             _onChange := Function 3 |},
          [])
    /\ sameFields (final (Project.deserialize text sampleLoneSurrogate))
         sampleBeta.
Proof.
  apply (project_text_roundtrip sampleBeta sampleLoneSurrogate).
  split; [reflexivity|]. split; [right; reflexivity|].
  split; [exists 12 | exists 34]; (split; [reflexivity|]);
    unfold safe_integer; lia.
Defined.

(** X27. The text of a list that holds at least one project, all valid,
    decodes to the same projects: [serialize] returns a text and mutates
    nothing, and [deserialize] of that text into any list returns normally
    and leaves exactly as many projects, in the same order, each with the
    four fields of the original. *)
Theorem list_text_roundtrip (this target : Projects) :
  _projects this <> [] ->
  Forall validProject (_projects this) ->
  exists text,
    Projects.serialize this = (Ok text, this, [])
    /\ outcome (Projects.deserialize text target) = Ok tt
    /\ List.length (_projects (final (Projects.deserialize text target)))
       = List.length (_projects this)
    /\ Forall2 sameFields
         (_projects (final (Projects.deserialize text target)))
         (_projects this).
Proof.
  intros Hne Hvalid.
  destruct (projects_roundtrip this target Hne Hvalid)
    as [text [Hs [Hout [Hlist Hfields]]]].
  exists text. split; [exact Hs|]. split; [exact Hout|].
  split; [|exact Hfields]. rewrite Hlist. apply length_map.
Qed.

Lemma list_text_roundtrip_witness :
  exists text,
    Projects.serialize sampleList = (Ok text, sampleList, [])
    /\ outcome (Projects.deserialize text sampleListWithBlank) = Ok tt
    /\ List.length
         (_projects (final (Projects.deserialize text sampleListWithBlank)))
       = List.length (_projects sampleList)
    /\ Forall2 sameFields
         (_projects (final (Projects.deserialize text sampleListWithBlank)))
         (_projects sampleList).
Proof.
  apply (list_text_roundtrip sampleList sampleListWithBlank).
  - discriminate.
  - apply Forall_cons.
    + split; [reflexivity|]. split; [left; reflexivity|].
      split; exists 0; (split; [reflexivity|]); unfold safe_integer; lia.
    + apply Forall_cons; [|apply Forall_nil].
      split; [reflexivity|]. split; [right; reflexivity|].
      split; [exists 12 | exists 34]; (split; [reflexivity|]);
        unfold safe_integer; lia.
Defined.

(** X28. [remove] at an index inside [0, length) calls [onRemove], if set,
    once, with that index and before the list changes; then the list is one
    shorter, the projects before the index are where they were and each
    project after it has moved down by one. *)
Theorem remove_inside_bounds (index : Z) (this : Projects) :
  0 <= index < Z.of_nat (List.length (_projects this)) ->
  outcome (Projects.remove index this) = Ok tt
  /\ log (Projects.remove index this)
     = match _onRemove this with
       | Function f => [OnRemove f index this]
       | NoFunction => []
       end
  /\ S (List.length (_projects (final (Projects.remove index this))))
     = List.length (_projects this)
  /\ (forall j, (j < Z.to_nat index)%nat ->
        nth_error (_projects (final (Projects.remove index this))) j
        = nth_error (_projects this) j)
  /\ (forall j, (Z.to_nat index <= j)%nat ->
        nth_error (_projects (final (Projects.remove index this))) j
        = nth_error (_projects this) (S j)).
Proof. apply remove_in_range. Qed.

Lemma remove_inside_bounds_witness :
  outcome (Projects.remove 0 sampleList) = Ok tt
  /\ log (Projects.remove 0 sampleList) = [OnRemove 2 0 sampleList]
  /\ S (List.length (_projects (final (Projects.remove 0 sampleList))))
     = List.length (_projects sampleList)
  /\ (forall j, (j < Z.to_nat 0)%nat ->
        nth_error (_projects (final (Projects.remove 0 sampleList))) j
        = nth_error (_projects sampleList) j)
  /\ (forall j, (Z.to_nat 0 <= j)%nat ->
        nth_error (_projects (final (Projects.remove 0 sampleList))) j
        = nth_error (_projects sampleList) (S j)).
Proof.
  apply (remove_inside_bounds 0 sampleList). simpl. lia.
Defined.
